(** * gilot command-line front end (src/gilot/app.py)

    A shallow embedding of the pure parts of [gilot.app]: the file filter
    [compose_filter], the duration dispatch [args_to_duration] and the data
    flow of the sub-command handlers, together with the properties the
    specification states about them. *)

From Stdlib Require Import ZArith List Bool Ascii String Lia.
From stdpp Require Import base option list gmap strings sorting pretty.

Local Open Scope string_scope.
Local Open Scope Z_scope.

(** ** Python values used by the front end *)

(** Exceptions that can escape the modelled functions. *)
Inductive error : Type :=
| ValueError
| InvalidRangeError.

(** A computation that either raises or returns. *)
Definition result (A : Type) : Type := (error + A)%type.

Definition ok {A} (a : A) : result A := inr a.
Definition raise {A} (e : error) : result A := inl e.

Definition rbind {A B} (c : result A) (k : A -> result B) : result B :=
  match c with
  | inl e => inl e
  | inr a => k a
  end.

Notation "'let*' x ':=' c 'in' k" := (rbind c (fun x => k))
  (at level 10, x name, c at level 100, k at level 200).

(** Truthiness of an [Optional[str]]: [None] and the empty string are falsy.
    [truthy_str o] is [Some s] exactly when [o] holds a non-empty [s]. *)
Definition truthy_str (o : option string) : option string :=
  match o with
  | Some (String c s) => Some (String c s)
  | _ => None
  end.

(** Truthiness of an [Optional[List[str]]]: [None] and [[]] are falsy. *)
Definition truthy_list {A} (o : option (list A)) : bool :=
  match o with
  | Some (_ :: _) => true
  | _ => false
  end.

(** [x or d] on an optional list. *)
Definition or_default {A} (o : option (list A)) (d : list A) : list A :=
  match o with
  | Some (x :: l) => x :: l
  | _ => d
  end.

(** ** [fnmatch.fnmatch] of the Python standard library

    [app.py] imports [fnmatch] and calls it on the file name and the pattern.
    On a POSIX platform [os.path.normcase] is the identity, so [fnmatch] is
    [fnmatchcase]: the pattern is translated token by token and the whole
    name must match ([re.match] against a pattern ending in [\Z], with the
    [s] flag so that a dot also matches a newline). A character of a name
    or of a pattern is one [ascii], so the strings are those whose
    characters are below 256. *)
Module Fnmatch.

(** One element of a bracket expression: a range [lo-hi]; a single
    character [c] is the range [c-c]. *)
Definition range : Type := (ascii * ascii)%type.

Inductive token : Type :=
| TStar                                   (* [*]     -> [.*] *)
| TAny                                    (* [?]     -> [.]  *)
| TSet (negated : bool) (body : list range) (* [[seq]] / [[!seq]] *)
| TLit (c : ascii).                       (* anything else, escaped *)

(** The characters up to the first [']'], when there is one. *)
Fixpoint scan_close (s : string) : option string :=
  match s with
  | EmptyString => None
  | String c r =>
      if Ascii.eqb c "]" then Some EmptyString
      else option_map (String c) (scan_close r)
  end.

(** [stuff = pat[i:j]] for the bracket opened just before [s]: a leading
    ['!'] and then a leading [']'] do not close the bracket; [None] when no
    closing bracket follows. *)
Definition bracket_stuff (s : string) : option string :=
  match s with
  | String "!" (String "]" r) =>
      option_map (fun t => String "!" (String "]" t)) (scan_close r)
  | String "!" r => option_map (String "!") (scan_close r)
  | String "]" r => option_map (String "]") (scan_close r)
  | _ => scan_close s
  end.

(** The members of a bracket body, read left to right: [x-y] is a range
    when a character follows the hyphen, any other character stands for
    itself. *)
Inductive item : Type :=
| ISingle (c : ascii)
| IRange (lo hi : ascii).

Fixpoint items (s : string) : list item :=
  match s with
  | EmptyString => []
  | String x r =>
      match r with
      | String h (String y r') =>
          if Ascii.eqb h "-" then IRange x y :: items r'
          else ISingle x :: items r
      | _ => ISingle x :: items r
      end
  end.

(** A range whose bounds are out of order is empty; [translate] removes
    it from the set, bounds and hyphen. *)
Definition reversed (i : item) : bool :=
  match i with
  | ISingle _ => false
  | IRange lo hi => N.ltb (N_of_ascii hi) (N_of_ascii lo)
  end.

Definition kept (l : list item) : list item :=
  List.filter (fun i => negb (reversed i)) l.

Definition item_range (i : item) : range :=
  match i with
  | ISingle c => (c, c)
  | IRange lo hi => (lo, hi)
  end.

(** The set that [[stuff]] denotes. Negation is read off the first
    character of what is left once the empty ranges are removed: a body
    that opens with empty ranges and goes on with ['!'] is negated too,
    and a hyphen that then comes first stands for itself. *)
Definition set_of_stuff (stuff : string) : token :=
  match stuff with
  | EmptyString => TSet false []
  | String c body =>
      if Ascii.eqb c "!" then TSet true (List.map item_range (kept (items body)))
      else
        let l := items stuff in
        match l with
        | i :: _ =>
            if reversed i then
              match kept l with
              | ISingle c' :: rest =>
                  if Ascii.eqb c' "!" then TSet true (List.map item_range rest)
                  else TSet false (List.map item_range (kept l))
              | IRange lo hi :: rest =>
                  if Ascii.eqb lo "!"
                  then TSet true
                         (("-"%char, "-"%char) :: (hi, hi) :: List.map item_range rest)
                  else TSet false (List.map item_range (kept l))
              | [] => TSet false []
              end
            else TSet false (List.map item_range (kept l))
        | [] => TSet false []
        end
  end.

(** [translate]: [skip] counts the characters of a bracket expression
    already consumed (the source sets [i = j+1]). *)
Fixpoint translate_from (skip : nat) (pat : string) : list token :=
  match pat with
  | EmptyString => []
  | String c rest =>
      match skip with
      | S k => translate_from k rest
      | O =>
          if Ascii.eqb c "*" then TStar :: translate_from 0 rest
          else if Ascii.eqb c "?" then TAny :: translate_from 0 rest
          else if Ascii.eqb c "[" then
            match bracket_stuff rest with
            | None => TLit "[" :: translate_from 0 rest
            | Some stuff =>
                set_of_stuff stuff
                  :: translate_from (S (String.length stuff)) rest
            end
          else TLit c :: translate_from 0 rest
      end
  end.

Definition translate (pat : string) : list token := translate_from 0 pat.

Definition in_range (c : ascii) (r : range) : bool :=
  (N.leb (N_of_ascii (fst r)) (N_of_ascii c)
   && N.leb (N_of_ascii c) (N_of_ascii (snd r)))%bool.

Definition in_set (negated : bool) (body : list range) (c : ascii) : bool :=
  xorb negated (existsb (in_range c) body).

(** Anchored match of a token list against the whole of [s]. *)
Fixpoint tokens_match (ts : list token) (s : string) : bool :=
  match ts with
  | [] => match s with EmptyString => true | _ => false end
  | TStar :: ts' =>
      (fix star (s : string) : bool :=
         (tokens_match ts' s
          || match s with
             | EmptyString => false
             | String _ s' => star s'
             end)%bool) s
  | TAny :: ts' =>
      match s with
      | EmptyString => false
      | String _ s' => tokens_match ts' s'
      end
  | TSet neg body :: ts' =>
      match s with
      | EmptyString => false
      | String c s' => (in_set neg body c && tokens_match ts' s')%bool
      end
  | TLit a :: ts' =>
      match s with
      | EmptyString => false
      | String c s' => (Ascii.eqb c a && tokens_match ts' s')%bool
      end
  end.

Definition fnmatch (name pat : string) : bool :=
  tokens_match (translate pat) name.

End Fnmatch.

Import Fnmatch.

(** ** The file filter *)

(** [compose_filter(allow, deny)] returns the closure [match]. *)
Definition compose_filter (allow deny : option (list string)) : string -> bool :=
  let allow_list := or_default allow ["*"] in
  let deny_list := or_default deny [] in
  fun file_name =>
    let is_allowed := existsb (fun p => fnmatch file_name p) allow_list in
    let is_denyed := existsb (fun p => fnmatch file_name p) deny_list in
    (is_allowed && negb is_denyed)%bool.

(** The specification's [matches_any(n, patterns)]. *)
Definition matches_any (n : string) (patterns : list string) : bool :=
  existsb (fun p => fnmatch n p) patterns.

(** ** The closure [match] over Python list objects

    [allow_list = allow or ["*"]] binds the caller's own list object when it
    is non-empty and a fresh list otherwise; the closure [match] reads both
    lists each time it is called. The store maps object identities to the
    pattern lists they hold. *)
Module Store.

Abbreviation loc := nat.
Abbreviation heap := (gmap nat (list string)).

(** Heap computations; [None] is a dangling reference (not reachable from
    Python code). *)
Definition M (A : Type) : Type := heap -> option (A * heap).

Definition ret {A} (a : A) : M A := fun h => Some (a, h).

Definition bind {A B} (c : M A) (k : A -> M B) : M B :=
  fun h =>
    match c h with
    | None => None
    | Some (a, h') => k a h'
    end.

Notation "'do' x '<-' c ';' k" := (bind c (fun x => k))
  (at level 10, x name, c at level 100, k at level 200).

Definition alloc (l : list string) : M loc :=
  fun h => let r := fresh (dom h) in Some (r, <[r := l]> h).

Definition read (r : loc) : M (list string) :=
  fun h =>
    match h !! r with
    | None => None
    | Some l => Some (l, h)
    end.

(** [x or d] where [x] is [None] or a reference to a list and [d] is a list
    display, which creates a new object. *)
Definition or_default (o : option loc) (d : list string) : M loc :=
  match o with
  | None => alloc d
  | Some r =>
      do l <- read r;
      match l with
      | [] => alloc d
      | _ :: _ => ret r
      end
  end.

(** The free variables of the closure [match]. *)
Record closure : Type := Closure { allow_list : loc; deny_list : loc }.

Definition compose_filter (allow deny : option loc) : M closure :=
  do a <- or_default allow ["*"];
  do d <- or_default deny [];
  ret (Closure a d).

(** The inner function [match] ([match] is a keyword here). *)
Definition match_ (c : closure) (file_name : string) : M bool :=
  do al <- read (allow_list c);
  let is_allowed := existsb (fun p => fnmatch file_name p) al in
  do dl <- read (deny_list c);
  let is_denyed := existsb (fun p => fnmatch file_name p) dl in
  ret (is_allowed && negb is_denyed)%bool.

(** The list an optional argument denotes in heap [h]. *)
Definition contents (h : heap) (o : option loc) : option (list string) :=
  match o with
  | None => None
  | Some r => h !! r
  end.

(** Applying a predicate to many names, one after the other. *)
Fixpoint map_names (c : closure) (names : list string) : M (list bool) :=
  match names with
  | [] => ret []
  | n :: ns =>
      do b <- match_ c n;
      do bs <- map_names c ns;
      ret (b :: bs)
  end.

End Store.

(** An argument of [compose_filter] is [None] or a reference to a live
    list. *)
Definition live (h : Store.heap) (o : option Store.loc) : Prop :=
  match o with
  | None => True
  | Some r => is_Some (h !! r)
  end.

(** ** Durations *)

(** [int(s)] for a [str] whose characters are below 256: surrounding white
    space is ignored (the ASCII white space of C, and the characters 0x85
    and 0xA0; the separators 0x1C to 0x1F are not white space here), a sign
    may precede the decimal digits, and single underscores may separate
    digits; anything else raises [ValueError], and so does a numeral of
    more than 4300 digits. *)
Module PyInt.

Definition is_space (c : ascii) : bool :=
  let n := N_of_ascii c in
  ((N.leb 9 n && N.leb n 13) || N.eqb n 32 || N.eqb n 133 || N.eqb n 160)%bool.

Definition is_digit (c : ascii) : bool :=
  let n := N_of_ascii c in (N.leb 48 n && N.leb n 57)%bool.

Definition digit_value (c : ascii) : Z := Z.of_N (N_of_ascii c) - 48.

Fixpoint lstrip (s : string) : string :=
  match s with
  | EmptyString => EmptyString
  | String c r => if is_space c then lstrip r else s
  end.

Fixpoint rstrip (s : string) : string :=
  match s with
  | EmptyString => EmptyString
  | String c r =>
      match rstrip r with
      | EmptyString => if is_space c then EmptyString else String c EmptyString
      | r' => String c r'
      end
  end.

(** [after_digit] tells whether the previous character was a digit: an
    underscore is accepted only between two digits. *)
Fixpoint digits (acc : Z) (after_digit : bool) (s : string) : option Z :=
  match s with
  | EmptyString => if after_digit then Some acc else None
  | String c r =>
      if is_digit c then digits (10 * acc + digit_value c) true r
      else if Ascii.eqb c "_" then
        (if after_digit then digits acc false r else None)
      else None
  end.

(** The default of [sys.get_int_max_str_digits()]: a numeral with more
    digits is refused. *)
Definition max_str_digits : Z := 4300.

Fixpoint digit_count (s : string) : Z :=
  match s with
  | EmptyString => 0
  | String c r => (if is_digit c then 1 else 0) + digit_count r
  end.

Definition int (s : string) : result Z :=
  let t := rstrip (lstrip s) in
  let parsed :=
    match t with
    | String "-" r => option_map Z.opp (digits 0 false r)
    | String "+" r => digits 0 false r
    | t => digits 0 false t
    end in
  match parsed with
  | Some n => if digit_count t <=? max_str_digits then ok n else raise ValueError
  | None => raise ValueError
  end.

End PyInt.

(** The [since], [until] and [month] attributes of the namespace that
    [argparse] builds for the [log] sub-command; no [type=] is declared, so
    each is [None] or the string typed by the user. *)
Record log_args : Type := LogArgs {
  since : option string;
  until : option string;
  month : option string
}.

(** The two constructors of [gilot.core.Duration] that [app.py] calls:
    [Duration.range(since, until)] and [Duration.months(m, since=...)]. *)
Class DurationClass (D : Type) : Type := {
  Duration_range : string -> string -> result D;
  Duration_months : Z -> option string -> result D
}.

Definition args_to_duration {D} `{DurationClass D} (args : log_args) : result D :=
  match truthy_str (since args), truthy_str (until args) with
  | Some s, Some u => Duration_range s u
  | _, _ =>
  match truthy_str (since args), truthy_str (month args) with
  | Some s, Some m => let* n := PyInt.int m in Duration_months n (Some s)
  | _, _ =>
  match truthy_str (since args) with
  | Some s => Duration_months 6 (Some s)
  | None =>
  match truthy_str (month args) with
  | Some m => let* n := PyInt.int m in Duration_months n None
  | None => Duration_months 6 None
  end end end end.

(** *** Calendar dates *)
Module Calendar.

Record date : Type := Date { year : Z; mon : Z; day : Z }.

Definition is_leap (y : Z) : bool :=
  ((y mod 4 =? 0) && (negb (y mod 100 =? 0) || (y mod 400 =? 0)))%bool.

Definition days_in_month (y m : Z) : Z :=
  if m =? 2 then (if is_leap y then 29 else 28)
  else if (m =? 4) || (m =? 6) || (m =? 9) || (m =? 11) then 30
  else 31.

Definition valid (d : date) : Prop :=
  1 <= mon d <= 12 /\ 1 <= day d <= days_in_month (year d) (mon d).

(** Chronological order. *)
Definition ltb (a b : date) : bool :=
  ((year a <? year b)
   || ((year a =? year b)
       && ((mon a <? mon b) || ((mon a =? mon b) && (day a <? day b)))))%bool.

(** Number of the month counted from year 0. *)
Definition month_index (d : date) : Z := 12 * year d + (mon d - 1).

(** Calendar-month shift: the month number moves by [k] and the day is kept,
    clamped to the length of the target month. *)
Definition add_months (d : date) (k : Z) : date :=
  let t := month_index d + k in
  let y := t / 12 in
  let m := t mod 12 + 1 in
  Date y m (Z.min (day d) (days_in_month y m)).

Definition months_between (a b : date) : Z := month_index b - month_index a.

Fixpoint number (acc : Z) (s : string) : option Z :=
  match s with
  | EmptyString => Some acc
  | String c r =>
      if PyInt.is_digit c then number (10 * acc + PyInt.digit_value c) r
      else None
  end.

(** ISO calendar dates [YYYY-MM-DD], as in the option help
    ("SINCE must be ISO format like 2020-01-01"). *)
Definition fromisoformat (s : string) : option date :=
  match s with
  | String y1 (String y2 (String y3 (String y4 (String h1
      (String m1 (String m2 (String h2 (String d1 (String d2 EmptyString))))))))) =>
      if (Ascii.eqb h1 "-" && Ascii.eqb h2 "-")%bool then
        match number 0 (String y1 (String y2 (String y3 (String y4 EmptyString)))),
              number 0 (String m1 (String m2 EmptyString)),
              number 0 (String d1 (String d2 EmptyString)) with
        | Some y, Some m, Some d =>
            if ((1 <=? y) && (1 <=? m) && (m <=? 12)
                && (1 <=? d) && (d <=? days_in_month y m))%bool
            then Some (Date y m d) else None
        | _, _, _ => None
        end
      else None
  | _ => None
  end.

End Calendar.

(** A half-open interval [[d_start, d_end)]. *)
Record Duration : Type := mkDuration {
  d_start : Calendar.date;
  d_end : Calendar.date
}.

(** Modelled from the spec: [gilot.core.Duration] is not part of the sources
    at hand. [Duration.range] builds [[since, until)] and fails with
    [InvalidRangeError] when [since >= until]; malformed parameters are
    [InvalidRangeError] too. *)
Definition spec_range (since until : string) : result Duration :=
  match Calendar.fromisoformat since, Calendar.fromisoformat until with
  | Some s, Some u =>
      if Calendar.ltb s u then ok (mkDuration s u) else raise InvalidRangeError
  | _, _ => raise InvalidRangeError
  end.

(** Modelled from the spec: [gilot.core.Duration] is not part of the sources
    at hand. [Duration.months(m, since)] fails with [InvalidRangeError] when
    [m <= 0]; otherwise it is [[since, since + m months)] when [since] is
    given and [[now - m months, now)] when it is not. *)
Definition spec_months (now : Calendar.date) (m : Z) (since : option string)
  : result Duration :=
  if m <=? 0 then raise InvalidRangeError
  else
    match since with
    | Some s =>
        match Calendar.fromisoformat s with
        | Some d => ok (mkDuration d (Calendar.add_months d m))
        | None => raise InvalidRangeError
        end
    | None => ok (mkDuration (Calendar.add_months now (- m)) now)
    end.

Definition spec_Duration (now : Calendar.date) : DurationClass Duration :=
  {| Duration_range := spec_range; Duration_months := spec_months now |}.

(** The dispatch with the calls left uninterpreted: the free implementation
    of [DurationClass] records which constructor was called on what. *)
Inductive duration_call : Type :=
| CallRange (since until : string)
| CallMonths (m : Z) (since : option string).

Definition free_Duration : DurationClass duration_call :=
  {| Duration_range := fun s u => ok (CallRange s u);
     Duration_months := fun m s => ok (CallMonths m s) |}.

(** The date a [since] or [until] argument denotes, and the month count a
    [month] argument denotes, when they are supplied. *)
Definition given_date (o : option string) : option Calendar.date :=
  match truthy_str o with
  | Some s => Calendar.fromisoformat s
  | None => None
  end.

Definition given_months (o : option string) : option Z :=
  match truthy_str o with
  | Some ms => match PyInt.int ms with inr m => Some m | inl _ => None end
  | None => None
  end.

(** A valid configuration: what is supplied parses. *)
Definition well_formed (args : log_args) : Prop :=
  (forall s, truthy_str (since args) = Some s -> is_Some (Calendar.fromisoformat s))
  /\ (forall u, truthy_str (until args) = Some u -> is_Some (Calendar.fromisoformat u))
  /\ (forall ms, truthy_str (month args) = Some ms -> exists m, PyInt.int ms = ok m).

(** The two cases of C5 as the claim words them. *)
Definition bad_range (args : log_args) : Prop :=
  exists ds du, given_date (since args) = Some ds
                /\ given_date (until args) = Some du
                /\ Calendar.ltb ds du = false.

Definition bad_months (args : log_args) : Prop :=
  exists m, given_months (month args) = Some m /\ m <= 0.

(** ** The report sub-commands *)

(** A CSV source: a path given with [-i], or the default [sys.__stdin__]. *)
Inductive source : Type :=
| Stdin
| Path (p : string).

(** The attributes the [plot], [info], [hotspot] and [hotgraph] handlers
    read from their namespace. [output] is [None] for the default
    ([False] or [sys.__stdout__]). *)
Record report_args : Type := ReportArgs {
  input : list source;
  output : option string;
  name : string;
  timeslot : string;
  allow_files : option (list string);
  ignore_files : option (list string);
  num : Z;
  csv : bool;
  rank : Z;
  stop_retry : bool
}.

(** What the handlers use of the [gilot] package: the table methods, the
    hotspot aggregation and the row slice [result[:num]]. *)
Class Gilot (table report : Type) : Type := {
  from_csvs : list source -> table;
  filter_files : table -> (string -> bool) -> table;
  expand_files : table -> (string -> bool) -> table;
  hotspot : table -> report;
  head_rows : report -> Z -> report
}.

(** The call a handler ends with. *)
Inductive action (table report : Type) : Type :=
| Plot (df : table) (output : option string) (name timeslot : string)
| PrintInfo (df : table)
| ToCsv (result : report) (output : option string)
| PrettyPrintHotspot (rows : report)
| Hotgraph (df : table) (output_file_name : option string)
    (rank : Z) (stop_retry : bool).

Arguments Plot {table report}.
Arguments PrintInfo {table report}.
Arguments ToCsv {table report}.
Arguments PrettyPrintHotspot {table report}.
Arguments Hotgraph {table report}.

Section handlers.
Context {table report : Type} `{G : Gilot table report}.

Definition handle_plot (args : report_args) : action table report :=
  let df := from_csvs (input args) in
  let df :=
    if (truthy_list (allow_files args) || truthy_list (ignore_files args))%bool
    then filter_files df
           (compose_filter (allow_files args) (ignore_files args))
    else df in
  Plot df (output args) (name args) (timeslot args).

Definition handle_info (args : report_args) : action table report :=
  let df := from_csvs (input args) in
  let df :=
    if (truthy_list (allow_files args) || truthy_list (ignore_files args))%bool
    then filter_files df
           (compose_filter (allow_files args) (ignore_files args))
    else df in
  PrintInfo df.

Definition handle_hotspot (args : report_args) : action table report :=
  let df := from_csvs (input args) in
  let result :=
    hotspot
      (expand_files df
         (compose_filter (allow_files args) (ignore_files args))) in
  if csv args then ToCsv result (output args)
  else PrettyPrintHotspot (head_rows result (num args)).

Definition handle_hotgraph (args : report_args) : action table report :=
  let df := from_csvs (input args) in
  let is_match := compose_filter (allow_files args) (ignore_files args) in
  let epanded_df := expand_files df is_match in
  Hotgraph epanded_df (output args) (rank args) (stop_retry args).

(** The table an action consumes, and the report it emits. *)
Definition table_of (a : action table report) : option table :=
  match a with
  | Plot df _ _ _ => Some df
  | PrintInfo df => Some df
  | Hotgraph df _ _ _ => Some df
  | ToCsv _ _ | PrettyPrintHotspot _ => None
  end.

Definition report_of (a : action table report) : option report :=
  match a with
  | ToCsv r _ => Some r
  | PrettyPrintHotspot r => Some r
  | _ => None
  end.
End handlers.

(** The free implementation of [Gilot]: a table is the expression that
    built it, so that the calls made on it can be read off. *)
Inductive sym_table : Type :=
| SFromCsvs (inputs : list source)
| SFilterFiles (df : sym_table) (is_match : string -> bool)
| SExpandFiles (df : sym_table) (is_match : string -> bool).

Inductive sym_report : Type :=
| SHotspot (df : sym_table)
| SHead (r : sym_report) (n : Z).

Definition free_Gilot : Gilot sym_table sym_report :=
  {| from_csvs := SFromCsvs;
     filter_files := SFilterFiles;
     expand_files := SExpandFiles;
     hotspot := SHotspot;
     head_rows := SHead |}.

Fixpoint filter_files_calls (t : sym_table) : nat :=
  match t with
  | SFromCsvs _ => 0
  | SFilterFiles df _ => S (filter_files_calls df)
  | SExpandFiles df _ => filter_files_calls df
  end.

Fixpoint report_source (r : sym_report) : sym_table :=
  match r with
  | SHotspot df => df
  | SHead r' _ => report_source r'
  end.

(** The table handed to the downstream operation of an action. *)
Definition downstream (a : action sym_table sym_report) : sym_table :=
  match a with
  | Plot df _ _ _ | PrintInfo df | Hotgraph df _ _ _ => df
  | ToCsv r _ | PrettyPrintHotspot r => report_source r
  end.

(** ** The hotspot report *)
Module Hotspot.

Record FileChangeRecord : Type := FileChange {
  hash : string;
  author : string;
  timestamp : Z;
  changed_file : string
}.

Record HotspotRow : Type := Row {
  file_name : string;
  commits : nat;
  authors : nat;
  hotspot : Z
}.

(** The order of two adjacent report rows: score descending, ties by file
    name ascending. *)
Definition in_order (a b : HotspotRow) : Prop :=
  hotspot a >= hotspot b /\
  (hotspot a = hotspot b -> String.le (file_name a) (file_name b)).

Global Instance in_order_dec (a b : HotspotRow) : Decision (in_order a b).
Proof. unfold in_order. apply _. Defined.

(** [l[:n]] on a Python sequence; a negative [n] counts from the end. *)
Definition slice_to {A} (l : list A) (n : Z) : list A :=
  if 0 <=? n then take (Z.to_nat n) l
  else take (Z.to_nat (Z.of_nat (length l) + n)) l.

Section aggregate.
(** The combination of [commits] and [authors] is left open by the
    specification; [commits * authors] is its suggested default. *)
Variable score : nat -> nat -> Z.

Definition distinct (l : list string) : nat := length (remove_dups l).

Definition group (f : string) (rows : list FileChangeRecord)
  : list FileChangeRecord :=
  List.filter (fun r => String.eqb (changed_file r) f) rows.

Definition row_of (rows : list FileChangeRecord) (f : string) : HotspotRow :=
  let g := group f rows in
  let c := distinct (List.map hash g) in
  let a := distinct (List.map author g) in
  Row f c a (score c a).

(** Modelled from the spec: [gilot.hotspot] is not part of the sources at
    hand. It groups the rows by file name, counts the distinct hashes and
    authors of each group, scores the group and sorts by score descending,
    ties by file name ascending. *)
Definition aggregate (rows : list FileChangeRecord) : list HotspotRow :=
  merge_sort in_order
    (List.map (row_of rows) (remove_dups (List.map changed_file rows))).
End aggregate.

Definition default_score (c a : nat) : Z := Z.of_nat c * Z.of_nat a.

End Hotspot.

(** The handlers over concrete tables: any table type whose rows can be
    enumerated, with the aggregation above as [gilot.hotspot]. *)
Definition rows_Gilot {table : Type}
    (load : list source -> table)
    (filter expand : table -> (string -> bool) -> table)
    (rows_of : table -> list Hotspot.FileChangeRecord)
    (score : nat -> nat -> Z)
  : Gilot table (list Hotspot.HotspotRow) :=
  {| from_csvs := load;
     filter_files := filter;
     expand_files := expand;
     hotspot := fun t => Hotspot.aggregate score (rows_of t);
     head_rows := Hotspot.slice_to |}.

(** The rows of the report an action emits. *)
Definition report_rows {table : Type}
    (a : action table (list Hotspot.HotspotRow)) : list Hotspot.HotspotRow :=
  match report_of a with
  | Some r => r
  | None => []
  end.

(** At least one of [--allow-files] and [--ignore-files] is given with a
    pattern. *)
Definition files_given (args : report_args) : Prop :=
  (exists x l, allow_files args = Some (x :: l))
  \/ (exists x l, ignore_files args = Some (x :: l)).

(** ** Patterns without metacharacters *)

(** A pattern character that [fnmatch] does not interpret. *)
Definition plain_char (c : ascii) : bool :=
  negb (Ascii.eqb c "*" || Ascii.eqb c "?" || Ascii.eqb c "[")%bool.

Fixpoint plain (p : string) : bool :=
  match p with
  | EmptyString => true
  | String c r => (plain_char c && plain r)%bool
  end.

(** ** Assignment to a list object *)

(** [l[:] = new], or any other in-place change of the list at [r]: the
    object keeps its identity and gets a new content. *)
Definition store_write (r : Store.loc) (new : list string) : Store.M unit :=
  fun h =>
    match h !! r with
    | None => None
    | Some _ => Some (tt, <[r := new]> h)
    end.

(** ** Logging set-up *)

(** The level constants of the [logging] module. *)
Module Logging.

Definition NOTSET : Z := 0.
Definition DEBUG : Z := 10.
Definition INFO : Z := 20.
Definition WARNING : Z := 30.
Definition ERROR : Z := 40.
Definition CRITICAL : Z := 50.

End Logging.

(** [log_level] of [init_logger]: the level given to the stream handler;
    [verbose] is the number of [-v] flags ([action="count"]). *)
Definition log_level (verbose : Z) : Z :=
  Z.max Logging.NOTSET (Logging.WARNING - verbose * 10).

(** What [init_logger] leaves behind: the root logger at [NOTSET] and one
    more handler, at [log_level], on the root logger. *)
Record logging_state : Type := LoggingState {
  root_level : Z;
  handler_levels : list Z
}.

Definition init_logger (verbose : Z) (st : logging_state) : logging_state :=
  {| root_level := Logging.NOTSET;
     handler_levels := handler_levels st ++ [log_level verbose] |}.

(** A record of level [levelno] logged on a logger without a level of its
    own is enabled when [levelno] is above the manager's [disable] level,
    which is [0], and at least the root level; it is then written by each
    handler whose level is at most [levelno]. *)
Definition emitted_by (st : logging_state) (levelno : Z) : list Z :=
  if ((0 <? levelno) && (root_level st <=? levelno))%bool
  then List.filter (fun l => l <=? levelno) (handler_levels st)
  else [].

(** ** The [log] sub-command *)

(** The attributes [handle_log] reads besides those of the duration. *)
Record log_namespace : Type := LogNamespace {
  repo : string;
  branch : string;
  log_output : option string;
  full : bool;
  duration_args : log_args
}.

(** [gilot.from_dir(repo, branch=, duration=, full=)]. *)
Class GilotLog (D table : Type) : Type := {
  from_dir : string -> string -> D -> bool -> table
}.

(** The call [handle_log] ends with: [df.to_csv(args.output)]. *)
Inductive log_action (table : Type) : Type :=
| LogToCsv (df : table) (output : option string).

Arguments LogToCsv {table}.

Definition handle_log {D table : Type} `{DurationClass D} `{GilotLog D table}
    (args : log_namespace) : result (log_action table) :=
  let* duration := args_to_duration (duration_args args) in
  let df := from_dir (repo args) (branch args) duration (full args) in
  ok (LogToCsv df (log_output args)).

(** The free implementation of [from_dir] records its arguments. *)
Inductive sym_log_table (D : Type) : Type :=
| SFromDir (repo branch : string) (duration : D) (full : bool).

Arguments SFromDir {D}.

Definition free_GilotLog (D : Type) : GilotLog D (sym_log_table D) :=
  {| from_dir := SFromDir |}.

(** ** Decimal numerals *)

(** Every character of [s] is an ASCII character. *)
Fixpoint ascii_only (s : string) : bool :=
  match s with
  | EmptyString => true
  | String c r => (N.ltb (N_of_ascii c) 128 && ascii_only r)%bool
  end.

(** The character of a decimal digit. *)
Definition digit_char (d : nat) : ascii := ascii_of_nat (48 + d).

Fixpoint numeral (ds : list nat) : string :=
  match ds with
  | [] => EmptyString
  | d :: ds' => String (digit_char d) (numeral ds')
  end.

(** The number that the digits [ds] denote after the digits of [acc]. *)
Fixpoint numeral_value (acc : Z) (ds : list nat) : Z :=
  match ds with
  | [] => acc
  | d :: ds' => numeral_value (10 * acc + Z.of_nat d) ds'
  end.

(** ** Printing the hotspot table *)
Module PrettyPrint.

Fixpoint spaces (n : nat) : string :=
  match n with
  | O => EmptyString
  | S k => String " " (spaces k)
  end.

(** [f"{s:>w}"] for a string, and the padding of ["{:wd}"] for a number:
    spaces on the left up to width [w], nothing cut. *)
Definition rjust (w : nat) (s : string) : string :=
  spaces (w - String.length s) +:+ s.

(** [sep.join(l)]. *)
Fixpoint join (sep : string) (l : list string) : string :=
  match l with
  | [] => EmptyString
  | [x] => x
  | x :: l' => x +:+ sep +:+ join sep l'
  end.

Definition targets : list string :=
  ["hotspot"; "commits"; "authors"; "file_name"].

Definition columns_text : string := join " " (List.map (rjust 8) targets).

(** ["{:6d}".format(n)]. *)
Definition format_6d (n : Z) : string := rjust 6 (pretty n).

Section rows.
(** ["{:.2f}".format(v["hotspot"])] formats a float and is left
    uninterpreted. *)
Variable format_2f : Z -> string.

(** The line printed for one row of the frame; [k] is the index, the file
    name. *)
Definition row_text (r : Hotspot.HotspotRow) : string :=
  let hotspot := format_2f (Hotspot.hotspot r) in
  let commits := format_6d (Z.of_nat (Hotspot.commits r)) in
  let authors := format_6d (Z.of_nat (Hotspot.authors r)) in
  let row := [hotspot; commits; authors; Hotspot.file_name r] in
  join " " (List.map (rjust 8) row).

(** The lines printed after the banner. *)
Definition pretty_print_hotspot (df : list Hotspot.HotspotRow) : list string :=
  columns_text :: List.map row_text df.
End rows.

End PrettyPrint.

(** * Properties *)

(** ** Glob matching *)
Section glob_facts.

Lemma tokens_match_star (ts : list token) (s : string) :
  tokens_match (TStar :: ts) s = true <->
  exists s1 s2, s = s1 +:+ s2 /\ tokens_match ts s2 = true.
Proof.
  split.
  - induction s as [|c s IH]; simpl; intros H.
    + exists EmptyString, EmptyString. split; [reflexivity|].
      now rewrite orb_false_r in H.
    + apply orb_true_iff in H as [H|H].
      * exists EmptyString, (String c s). now split.
      * destruct (IH H) as (s1 & s2 & -> & Hm).
        exists (String c s1), s2. now split.
  - intros (s1 & s2 & -> & Hm).
    induction s1 as [|c s1 IH]; simpl.
    + destruct s2; simpl in *; rewrite Hm; reflexivity.
    + simpl in IH. rewrite IH. apply orb_true_r.
Qed.


Lemma translate_star (p : string) :
  translate (String "*" p) = TStar :: translate p.
Proof. reflexivity. Qed.


Lemma fnmatch_star (n p : string) :
  fnmatch n (String "*" p) = true <->
  exists s1 s2, n = s1 +:+ s2 /\ fnmatch s2 p = true.
Proof. unfold fnmatch. rewrite translate_star. apply tokens_match_star. Qed.


Lemma fnmatch_empty_pattern (n : string) :
  fnmatch n "" = true <-> n = "".
Proof.
  unfold fnmatch, translate. simpl.
  destruct n; split; intros H; try reflexivity; discriminate H.
Qed.

Lemma append_empty_r (s : string) : s +:+ "" = s.
Proof.
  induction s as [|c s IH]; [reflexivity|].
  change (String c (s +:+ "") = String c s). now rewrite IH.
Qed.

Lemma fnmatch_everything (n : string) : fnmatch n "*" = true.
Proof.
  apply fnmatch_star. exists n, "". split.
  - symmetry. apply append_empty_r.
  - reflexivity.
Qed.

Lemma matches_any_star (n : string) (l : list string) :
  matches_any n ("*" :: l) = true.
Proof. unfold matches_any; simpl. now rewrite fnmatch_everything. Qed.

End glob_facts.

(** ** The file filter *)

Lemma compose_filter_unfold (allow deny : option (list string)) (n : string) :
  compose_filter allow deny n =
  (matches_any n (or_default allow ["*"])
   && negb (matches_any n (or_default deny [])))%bool.
Proof. reflexivity. Qed.

Lemma or_default_cons {A} (x : A) (l d : list A) :
  or_default (Some (x :: l)) d = x :: l.
Proof. reflexivity. Qed.

Lemma or_default_nonempty {A} (l d : list A) :
  l <> [] -> or_default (Some l) d = l.
Proof. destruct l; [congruence | reflexivity]. Qed.

Lemma or_default_deny {A} (l : list A) : or_default (Some l) [] = l.
Proof. now destruct l. Qed.

(** C1, as stated, fails on an explicitly empty allow list: the name ["a"]
    matches no allow pattern and is accepted all the same. *)
Lemma compose_filter_iff_fails :
  compose_filter (Some []) (Some []) "a" = true
  /\ matches_any "a" [] = false
  /\ ~ (compose_filter (Some []) (Some []) "a" = true <->
        matches_any "a" [] = true /\ matches_any "a" [] = false).
Proof.
  split; [reflexivity|]. split; [reflexivity|].
  intros [H _]. destruct (H eq_refl) as [H1 _]. discriminate H1.
Qed.

(** C1 (amended): for a non-empty allow list the predicate holds exactly
    when the name matches at least one allow pattern and no deny pattern;
    for an empty allow list it holds exactly when the name matches no deny
    pattern. *)
Theorem compose_filter_iff (n : string) (allow deny : list string) :
  (allow <> [] ->
   (compose_filter (Some allow) (Some deny) n = true <->
    matches_any n allow = true /\ matches_any n deny = false))
  /\ (allow = [] ->
      (compose_filter (Some allow) (Some deny) n = true <->
       matches_any n deny = false)).
Proof.
  rewrite compose_filter_unfold, or_default_deny. split.
  - intros Hne. rewrite (or_default_nonempty _ _ Hne).
    now rewrite andb_true_iff, negb_true_iff.
  - intros ->. simpl or_default. rewrite matches_any_star. simpl.
    apply negb_true_iff.
Qed.

Lemma compose_filter_iff_witness :
  (compose_filter (Some ["src/*"; "*.rb"]) (Some ["*.gen.rb"]) "lib/a.rb" = true <->
   matches_any "lib/a.rb" ["src/*"; "*.rb"] = true /\
   matches_any "lib/a.rb" ["*.gen.rb"] = false)
  /\ (compose_filter (Some []) (Some ["*.gen.rb"]) "lib/a.rb" = true <->
      matches_any "lib/a.rb" ["*.gen.rb"] = false).
Proof.
  split.
  - apply (proj1 (compose_filter_iff "lib/a.rb" ["src/*"; "*.rb"] ["*.gen.rb"])).
    discriminate.
  - apply (proj2 (compose_filter_iff "lib/a.rb" [] ["*.gen.rb"])).
    reflexivity.
Defined.

(** C3: an absent allow list stands for the single pattern [*], which
    matches every name, an absent deny list stands for the empty list, and
    the predicate built from no patterns at all accepts every name. *)
Theorem compose_filter_defaults :
  (forall deny n, compose_filter None deny n = compose_filter (Some ["*"]) deny n)
  /\ (forall allow n, compose_filter allow None n = compose_filter allow (Some []) n)
  /\ (forall n, fnmatch n "*" = true)
  /\ (forall n, compose_filter None None n = true).
Proof.
  repeat split; try reflexivity.
  - apply fnmatch_everything.
  - intros n. rewrite compose_filter_unfold. simpl or_default.
    now rewrite matches_any_star.
Qed.


(** C8: an explicitly empty allow list behaves as an absent one, and the
    predicate then accepts exactly the names no deny pattern matches. *)
Theorem compose_filter_empty_allow (deny : option (list string)) (n : string) :
  compose_filter (Some []) deny n = compose_filter None deny n
  /\ compose_filter (Some []) deny n = negb (matches_any n (default [] deny)).
Proof.
  split; [reflexivity|].
  rewrite compose_filter_unfold. simpl or_default at 1.
  rewrite matches_any_star. simpl. f_equal. f_equal.
  destruct deny as [[|]|]; reflexivity.
Qed.

(** ** The closure over the store *)
Section store_facts.

Lemma alloc_spec (l : list string) (h : Store.heap) :
  exists r, Store.alloc l h = Some (r, <[r := l]> h) /\ h !! r = None.
Proof.
  exists (fresh (dom h)). split; [reflexivity|].
  apply not_elem_of_dom, is_fresh.
Qed.

(** [x or d] returns a reference to the list [or_default] computes, in a
    heap where every older object is unchanged. *)
Lemma or_default_spec (o : option Store.loc) (d : list string) (h : Store.heap) :
  live h o ->
  exists r h',
    Store.or_default o d h = Some (r, h')
    /\ h' !! r = Some (or_default (Store.contents h o) d)
    /\ (forall r0 l0, h !! r0 = Some l0 -> h' !! r0 = Some l0).
Proof.
  intros Hlive.
  assert (Hfresh : exists r h',
    Store.alloc d h = Some (r, h') /\ h' !! r = Some d
    /\ (forall r0 l0, h !! r0 = Some l0 -> h' !! r0 = Some l0)).
  { destruct (alloc_spec d h) as (r & Hr & Hnone).
    exists r, (<[r := d]> h). split; [exact Hr|]. split.
    - apply lookup_insert_eq.
    - intros r0 l0 H0. rewrite lookup_insert_ne; [exact H0|].
      intros Heq. subst r0. rewrite Hnone in H0. discriminate H0. }
  destruct o as [r1|]; simpl in *.
  - destruct Hlive as [l Hl]. unfold Store.bind, Store.read. rewrite Hl.
    destruct l as [|x l]; [exact Hfresh|].
    exists r1, h. repeat split; auto.
  - exact Hfresh.
Qed.

Lemma compose_filter_spec (allow deny : option Store.loc) (h : Store.heap) :
  live h allow -> live h deny ->
  exists c h',
    Store.compose_filter allow deny h = Some (c, h')
    /\ h' !! Store.allow_list c
       = Some (or_default (Store.contents h allow) ["*"])
    /\ h' !! Store.deny_list c
       = Some (or_default (Store.contents h deny) []).
Proof.
  intros Ha Hd.
  destruct (or_default_spec allow ["*"] h Ha) as (a & h1 & Ea & Ha1 & Hext1).
  assert (Hd1 : live h1 deny).
  { destruct deny as [r|]; [|exact I]. destruct Hd as [l Hl].
    exists l. now apply Hext1. }
  destruct (or_default_spec deny [] h1 Hd1) as (d & h2 & Ed & Hd2 & Hext2).
  exists (Store.Closure a d), h2. split; [|split].
  - unfold Store.compose_filter, Store.bind. rewrite Ea, Ed. reflexivity.
  - simpl. now apply Hext2.
  - simpl. rewrite Hd2. do 2 f_equal.
    destruct deny as [r|]; [|reflexivity]. destruct Hd as [l Hl].
    simpl. rewrite Hl. now apply Hext1.
Qed.

Lemma match_spec (c : Store.closure) (h : Store.heap) (al dl : list string) (n : string) :
  h !! Store.allow_list c = Some al ->
  h !! Store.deny_list c = Some dl ->
  Store.match_ c n h = Some ((matches_any n al && negb (matches_any n dl))%bool, h).
Proof.
  intros Ha Hd. unfold Store.match_, Store.bind, Store.read.
  rewrite Ha, Hd. reflexivity.
Qed.

Lemma map_names_spec (c : Store.closure) (h : Store.heap) (f : string -> bool)
    (names : list string) :
  (forall n, Store.match_ c n h = Some (f n, h)) ->
  Store.map_names c names h = Some (List.map f names, h).
Proof.
  intros Hm. induction names as [|n ns IH]; [reflexivity|].
  simpl. unfold Store.bind at 1. rewrite Hm.
  unfold Store.bind at 1. rewrite IH. reflexivity.
Qed.

End store_facts.

(** C7: building the predicate from live arguments succeeds, and every
    evaluation of the built predicate returns the value of the pure
    [compose_filter] on the file name and the two pattern lists and leaves
    the store as it was; hence two evaluations on one name agree, and
    mapping the predicate over many names gives each name its own result. *)
Theorem match_pure_stateless (h : Store.heap) (allow deny : option Store.loc) :
  live h allow -> live h deny ->
  exists c h',
    Store.compose_filter allow deny h = Some (c, h')
    /\ (forall n,
          Store.match_ c n h'
          = Some (compose_filter (Store.contents h allow) (Store.contents h deny) n, h'))
    /\ (forall n,
          Store.bind (Store.match_ c n) (fun b1 =>
          Store.bind (Store.match_ c n) (fun b2 => Store.ret (b1, b2))) h'
          = Some ((compose_filter (Store.contents h allow) (Store.contents h deny) n,
                   compose_filter (Store.contents h allow) (Store.contents h deny) n), h'))
    /\ (forall names,
          Store.map_names c names h'
          = Some (List.map (compose_filter (Store.contents h allow)
                                            (Store.contents h deny)) names, h')).
Proof.
  intros Ha Hd.
  destruct (compose_filter_spec allow deny h Ha Hd) as (c & h' & Ec & Hal & Hdl).
  exists c, h'. split; [exact Ec|].
  assert (Hm : forall n, Store.match_ c n h'
     = Some (compose_filter (Store.contents h allow) (Store.contents h deny) n, h')).
  { intros n. rewrite (match_spec c h' _ _ n Hal Hdl). reflexivity. }
  split; [exact Hm|]. split.
  - intros n. unfold Store.bind. rewrite !Hm. reflexivity.
  - intros names. now apply map_names_spec.
Qed.

Lemma match_pure_stateless_witness :
  exists c h',
    Store.compose_filter (Some 0%nat) None {[ 0%nat := ["*.py"] ]} = Some (c, h')
    /\ Store.match_ c "a.py" h' = Some (true, h')
    /\ Store.match_ c "a.rb" h' = Some (false, h').
Proof.
  destruct (match_pure_stateless {[ 0%nat := ["*.py"] ]} (Some 0%nat) None)
    as (c & h' & Ec & Hm & _).
  - simpl. rewrite lookup_singleton_eq. eauto.
  - exact I.
  - exists c, h'. split; [exact Ec|]. split.
    + rewrite Hm. simpl Store.contents. rewrite lookup_singleton_eq. reflexivity.
    + rewrite Hm. simpl Store.contents. rewrite lookup_singleton_eq. reflexivity.
Defined.

(** ** Durations *)
Section calendar_facts.
Import Calendar.

Lemma fromisoformat_valid (s : string) (d : date) :
  fromisoformat s = Some d -> valid d.
Proof.
  unfold fromisoformat.
  do 11 (destruct s as [|? s]; try discriminate).
  destruct (_ && _)%bool; [|discriminate].
  destruct (number 0 _) as [y|]; [|discriminate].
  destruct (number 0 _) as [m|]; [|discriminate].
  destruct (number 0 _) as [dd|]; [|discriminate].
  destruct (_ && _)%bool eqn:E; [|discriminate].
  intros [= <-]. unfold valid; simpl.
  repeat (apply andb_true_iff in E as [E ?]). lia.
Qed.

Lemma fromisoformat_nonempty (s : string) (d : date) :
  fromisoformat s = Some d -> truthy_str (Some s) = Some s.
Proof. destruct s; [discriminate | reflexivity]. Qed.

Lemma month_index_add_months (d : date) (k : Z) :
  month_index (add_months d k) = month_index d + k.
Proof.
  unfold add_months, month_index at 1. simpl.
  pose proof (Z.div_mod (month_index d + k) 12). lia.
Qed.

Lemma add_months_mon (d : date) (k : Z) : 1 <= mon (add_months d k) <= 12.
Proof.
  unfold add_months. simpl.
  pose proof (Z.mod_pos_bound (month_index d + k) 12). lia.
Qed.

Lemma ltb_of_month_index (a b : date) :
  1 <= mon a <= 12 -> 1 <= mon b <= 12 ->
  month_index a < month_index b -> ltb a b = true.
Proof.
  unfold month_index, ltb. intros Ha Hb Hlt.
  destruct (Z.ltb_spec (year a) (year b)) as [?|Hy]; [reflexivity|].
  simpl. assert (year a = year b) as -> by lia.
  rewrite Z.eqb_refl. simpl.
  destruct (Z.ltb_spec (mon a) (mon b)); [reflexivity | lia].
Qed.

Lemma add_months_after (d : date) (k : Z) :
  valid d -> 0 < k -> ltb d (add_months d k) = true.
Proof.
  intros [Hm _] Hk. apply ltb_of_month_index; [exact Hm | apply add_months_mon |].
  rewrite month_index_add_months. lia.
Qed.

Lemma add_months_before (d : date) (k : Z) :
  valid d -> 0 < k -> ltb (add_months d (- k)) d = true.
Proof.
  intros [Hm _] Hk. apply ltb_of_month_index; [apply add_months_mon | exact Hm |].
  rewrite month_index_add_months. lia.
Qed.

Lemma months_between_add_months (d : date) (k : Z) :
  months_between d (add_months d k) = k.
Proof. unfold months_between. rewrite month_index_add_months. lia. Qed.

Lemma months_between_sub_months (d : date) (k : Z) :
  months_between (add_months d (- k)) d = k.
Proof. unfold months_between. rewrite month_index_add_months. lia. Qed.
End calendar_facts.

Lemma int_nonempty (ms : string) (m : Z) :
  PyInt.int ms = ok m -> truthy_str (Some ms) = Some ms.
Proof. destruct ms; [discriminate | reflexivity]. Qed.

Lemma truthy_str_Some (o : option string) (s : string) :
  truthy_str o = Some s -> o = Some s.
Proof. destruct o as [[|c t]|]; simpl; congruence. Qed.

(** *** The dispatch of [args_to_duration] *)
Section dispatch.
Context {D : Type} `{DC : DurationClass D}.

Lemma dispatch_range (args : log_args) (s u : string) :
  truthy_str (since args) = Some s -> truthy_str (until args) = Some u ->
  args_to_duration args = Duration_range s u.
Proof. unfold args_to_duration. now intros -> ->. Qed.

Lemma dispatch_since_months (args : log_args) (s ms : string) :
  truthy_str (since args) = Some s -> truthy_str (until args) = None ->
  truthy_str (month args) = Some ms ->
  args_to_duration args
  = (let* n := PyInt.int ms in Duration_months n (Some s)).
Proof. unfold args_to_duration. now intros -> -> ->. Qed.

Lemma dispatch_since_only (args : log_args) (s : string) :
  truthy_str (since args) = Some s -> truthy_str (until args) = None ->
  truthy_str (month args) = None ->
  args_to_duration args = Duration_months 6 (Some s).
Proof. unfold args_to_duration. now intros -> -> ->. Qed.

Lemma dispatch_months (args : log_args) (ms : string) :
  truthy_str (since args) = None -> truthy_str (month args) = Some ms ->
  args_to_duration args = (let* n := PyInt.int ms in Duration_months n None).
Proof.
  unfold args_to_duration. intros -> ->. now destruct (truthy_str (until args)).
Qed.

Lemma dispatch_default (args : log_args) :
  truthy_str (since args) = None -> truthy_str (month args) = None ->
  args_to_duration args = Duration_months 6 None.
Proof.
  unfold args_to_duration. intros -> ->. now destruct (truthy_str (until args)).
Qed.
End dispatch.

(** C2: the five construction rules, in the order in which they are tried,
    with [gilot.core.Duration] as the specification describes it. A date or
    a month count that is given is one the user typed and that parses. *)
Theorem args_to_duration_rules (now : Calendar.date) (args : log_args) :
  let resolve := @args_to_duration _ (spec_Duration now) args in
  (forall s u ds du,
      since args = Some s -> until args = Some u ->
      Calendar.fromisoformat s = Some ds ->
      Calendar.fromisoformat u = Some du ->
      Calendar.ltb ds du = true ->
      resolve = ok (mkDuration ds du))
  /\ (forall s ms ds m,
        since args = Some s -> truthy_str (until args) = None ->
        month args = Some ms ->
        Calendar.fromisoformat s = Some ds ->
        PyInt.int ms = ok m -> 0 < m ->
        resolve = ok (mkDuration ds (Calendar.add_months ds m))
        /\ Calendar.months_between ds (Calendar.add_months ds m) = m)
  /\ (forall s ds,
        since args = Some s -> truthy_str (until args) = None ->
        truthy_str (month args) = None ->
        Calendar.fromisoformat s = Some ds ->
        resolve = ok (mkDuration ds (Calendar.add_months ds 6))
        /\ Calendar.months_between ds (Calendar.add_months ds 6) = 6)
  /\ (forall ms m,
        truthy_str (since args) = None -> month args = Some ms ->
        PyInt.int ms = ok m -> 0 < m ->
        resolve = ok (mkDuration (Calendar.add_months now (- m)) now)
        /\ Calendar.months_between (Calendar.add_months now (- m)) now = m)
  /\ (truthy_str (since args) = None -> truthy_str (month args) = None ->
      resolve = ok (mkDuration (Calendar.add_months now (- 6)) now)
      /\ Calendar.months_between (Calendar.add_months now (- 6)) now = 6).
Proof.
  intros resolve. subst resolve.
  split; [|split; [|split; [|split]]].
  - intros s u ds du Hs Hu Hds Hdu Hlt.
    rewrite (dispatch_range args s u).
    + simpl. unfold spec_range. now rewrite Hds, Hdu, Hlt.
    + rewrite Hs. eapply fromisoformat_nonempty; eassumption.
    + rewrite Hu. eapply fromisoformat_nonempty; eassumption.
  - intros s ms ds m Hs Hu Hm Hds Hint Hpos.
    split; [|apply months_between_add_months].
    rewrite (dispatch_since_months args s ms); [| |exact Hu|].
    + rewrite Hint. simpl. unfold spec_months.
      destruct (Z.leb_spec m 0); [lia|]. now rewrite Hds.
    + rewrite Hs. eapply fromisoformat_nonempty; eassumption.
    + rewrite Hm. eapply int_nonempty; eassumption.
  - intros s ds Hs Hu Hm Hds.
    split; [|apply months_between_add_months].
    rewrite (dispatch_since_only args s); [|
      rewrite Hs; eapply fromisoformat_nonempty; eassumption | exact Hu | exact Hm].
    simpl. unfold spec_months. simpl. now rewrite Hds.
  - intros ms m Hs Hm Hint Hpos.
    split; [|apply months_between_sub_months].
    rewrite (dispatch_months args ms); [|exact Hs|].
    + rewrite Hint. simpl. unfold spec_months.
      destruct (Z.leb_spec m 0); [lia|]. reflexivity.
    + rewrite Hm. eapply int_nonempty; eassumption.
  - intros Hs Hm.
    split; [|apply (months_between_sub_months now 6)].
    now rewrite (dispatch_default args Hs Hm).
Qed.

Lemma args_to_duration_rules_witness :
  @args_to_duration _ (spec_Duration (Calendar.Date 2020 7 15))
    (LogArgs (Some "2020-01-31") None (Some "1"))
  = ok (mkDuration (Calendar.Date 2020 1 31) (Calendar.Date 2020 2 29))
  /\ @args_to_duration _ (spec_Duration (Calendar.Date 2020 7 15))
       (LogArgs None None None)
     = ok (mkDuration (Calendar.Date 2020 1 15) (Calendar.Date 2020 7 15)).
Proof.
  split.
  - exact (proj1 (proj1 (proj2
      (args_to_duration_rules (Calendar.Date 2020 7 15)
         (LogArgs (Some "2020-01-31") None (Some "1"))))
      "2020-01-31" "1" (Calendar.Date 2020 1 31) 1
      eq_refl eq_refl eq_refl eq_refl eq_refl eq_refl)).
  - exact (proj1 (proj2 (proj2 (proj2 (proj2
      (args_to_duration_rules (Calendar.Date 2020 7 15)
         (LogArgs None None None)))))
      eq_refl eq_refl)).
Defined.

(** C10: presence is truthiness. An empty [since] or [until] is treated as
    an absent one, so that [since] with an empty [until] gets the six-month
    window from [since]; the month string ["0"] is non-empty, hence
    supplied, and is forwarded as the integer [0]. *)
Theorem args_to_duration_truthiness {D : Type} `{DC : DurationClass D} :
  (forall u m,
      args_to_duration (LogArgs (Some "") u m) = args_to_duration (LogArgs None u m))
  /\ (forall s m,
        args_to_duration (LogArgs s (Some "") m) = args_to_duration (LogArgs s None m))
  /\ (forall c s,
        args_to_duration (LogArgs (Some (String c s)) (Some "") None)
        = Duration_months 6 (Some (String c s)))
  /\ (forall u,
        args_to_duration (LogArgs None u (Some "0")) = Duration_months 0 None)
  /\ (forall c s,
        args_to_duration (LogArgs (Some (String c s)) None (Some "0"))
        = Duration_months 0 (Some (String c s)))
  /\ PyInt.int "0" = ok 0.
Proof.
  split; [reflexivity|]. split; [reflexivity|].
  split; [intros c s; now apply dispatch_since_only|].
  split; [intros u; now rewrite (dispatch_months _ "0")|].
  split; [intros c s; now rewrite (dispatch_since_months _ (String c s) "0")|].
  reflexivity.
Qed.

(** *** Failure of the resolution *)

(** C5, as stated, fails: with [since] and [until] both given the month
    count is never looked at, so a month count of [0] raises nothing. *)
Lemma invalid_range_two_cases_fails :
  let args := LogArgs (Some "2020-01-01") (Some "2020-06-01") (Some "0") in
  well_formed args
  /\ bad_months args
  /\ @args_to_duration _ (spec_Duration (Calendar.Date 2020 7 15)) args
     = ok (mkDuration (Calendar.Date 2020 1 1) (Calendar.Date 2020 6 1))
  /\ ~ (@args_to_duration _ (spec_Duration (Calendar.Date 2020 7 15)) args
        = raise InvalidRangeError
        <-> bad_range args \/ bad_months args).
Proof.
  assert (Hb : bad_months (LogArgs (Some "2020-01-01") (Some "2020-06-01") (Some "0"))).
  { exists 0. split; [reflexivity | lia]. }
  simpl. split; [|split; [exact Hb | split; [reflexivity|]]].
  - repeat split; simpl; intros ? [= <-]; eauto.
  - intros [_ H]. specialize (H (or_intror Hb)). discriminate H.
Qed.

Lemma spec_range_cases (s u : string) (ds du : Calendar.date) :
  Calendar.fromisoformat s = Some ds -> Calendar.fromisoformat u = Some du ->
  (Calendar.ltb ds du = true /\ spec_range s u = ok (mkDuration ds du))
  \/ (Calendar.ltb ds du = false /\ spec_range s u = raise InvalidRangeError).
Proof.
  intros Hs Hu. unfold spec_range. rewrite Hs, Hu.
  destruct (Calendar.ltb ds du); [left | right]; now split.
Qed.

Lemma spec_months_since_cases (now : Calendar.date) (m : Z) (s : string)
    (ds : Calendar.date) :
  Calendar.fromisoformat s = Some ds ->
  (0 < m /\ spec_months now m (Some s) = ok (mkDuration ds (Calendar.add_months ds m))
   /\ Calendar.ltb ds (Calendar.add_months ds m) = true)
  \/ (m <= 0 /\ spec_months now m (Some s) = raise InvalidRangeError).
Proof.
  intros Hs. unfold spec_months. rewrite Hs.
  destruct (Z.leb_spec m 0); [right | left]; repeat split; try lia.
  apply add_months_after; [|lia]. eapply fromisoformat_valid; eassumption.
Qed.

Lemma spec_months_now_cases (now : Calendar.date) (m : Z) :
  Calendar.valid now ->
  (0 < m /\ spec_months now m None = ok (mkDuration (Calendar.add_months now (- m)) now)
   /\ Calendar.ltb (Calendar.add_months now (- m)) now = true)
  \/ (m <= 0 /\ spec_months now m None = raise InvalidRangeError).
Proof.
  intros Hnow. unfold spec_months.
  destruct (Z.leb_spec m 0); [right | left]; repeat split; try lia.
  now apply add_months_before.
Qed.

(** C5 (amended): in a valid configuration the resolution fails with
    [InvalidRangeError] exactly when [since] and [until] are both given
    with [since >= until], or when they are not both given and a month
    count [m <= 0] is given; in every other valid configuration it returns
    a duration with [start < end]. *)
Theorem invalid_range_cases (now : Calendar.date) (args : log_args) :
  Calendar.valid now -> well_formed args ->
  let resolve := @args_to_duration _ (spec_Duration now) args in
  (resolve = raise InvalidRangeError <->
   bad_range args
   \/ ((truthy_str (since args) = None \/ truthy_str (until args) = None)
       /\ bad_months args))
  /\ (resolve <> raise InvalidRangeError ->
      exists d, resolve = ok d /\ Calendar.ltb (d_start d) (d_end d) = true).
Proof.
  intros Hnow (Hws & Hwu & Hwm) resolve. subst resolve.
  unfold bad_range, bad_months, given_date, given_months.
  destruct (truthy_str (since args)) as [s|] eqn:Hs;
    [destruct (Hws s eq_refl) as [ds Hds]|];
  (destruct (truthy_str (until args)) as [u|] eqn:Hu;
    [destruct (Hwu u eq_refl) as [du Hdu]|]);
  (destruct (truthy_str (month args)) as [ms|] eqn:Hm;
    [destruct (Hwm ms eq_refl) as [m Hmi]; rewrite Hmi|]).
  all: try rewrite (dispatch_range args s u Hs Hu).
  all: try rewrite (dispatch_since_months args s ms Hs Hu Hm).
  all: try rewrite (dispatch_since_only args s Hs Hu Hm).
  all: try rewrite (dispatch_months args ms Hs Hm).
  all: try rewrite (dispatch_default args Hs Hm).
  all: try rewrite Hmi; simpl.
  all: try (destruct (spec_range_cases s u ds du Hds Hdu) as [[Hlt ->]|[Hlt ->]]).
  all: try (destruct (spec_months_since_cases now m s ds Hds) as [(Hpos & -> & Hlt)|[Hpos ->]]).
  all: try (destruct (spec_months_since_cases now 6 s ds Hds) as [(Hpos & -> & Hlt)|[Hpos ->]]).
  all: try (destruct (spec_months_now_cases now m Hnow) as [(Hpos & -> & Hlt)|[Hpos ->]]).
  all: try (destruct (spec_months_now_cases now 6 Hnow) as [(Hpos & -> & Hlt)|[Hpos ->]]).
  all: try lia.
  all: split;
    [ split;
      [ intros Hr; try discriminate Hr
      | intros [(ds' & du' & H1 & H2 & H3) | [Hng (m' & H1 & H2)]];
        try discriminate; try congruence;
        try (destruct Hng; discriminate);
        try (injection H1 as <-; lia) ]
    | intros Hne; try congruence; eauto ].
  all: try (left; eauto; fail).
  all: try (right; split; [auto|]; exists m; split; [reflexivity | lia]).
Qed.

Lemma invalid_range_cases_witness :
  @args_to_duration _ (spec_Duration (Calendar.Date 2020 7 15))
    (LogArgs (Some "2020-06-01") (Some "2020-01-01") None)
  = raise InvalidRangeError.
Proof.
  apply (proj1 (invalid_range_cases (Calendar.Date 2020 7 15)
                 (LogArgs (Some "2020-06-01") (Some "2020-01-01") None)
                 ltac:(vm_compute; repeat split; intros H; discriminate H)
                 ltac:(repeat split; simpl; intros ? [= <-]; eauto))).
  left. exists (Calendar.Date 2020 6 1), (Calendar.Date 2020 1 1).
  repeat split.
Defined.

(** ** The hotspot report *)
Section hotspot_facts.
Import Hotspot.

Lemma in_order_total (a b : HotspotRow) : in_order a b \/ in_order b a.
Proof.
  unfold in_order.
  destruct (Z.lt_trichotomy (hotspot a) (hotspot b)) as [Hlt|[Heq|Hgt]].
  - right. split; [lia|]. intros E. lia.
  - destruct (total String.le (file_name a) (file_name b)) as [Hle|Hle].
    + left. split; [lia|]. intros _. exact Hle.
    + right. split; [lia|]. intros _. exact Hle.
  - left. split; [lia|]. intros E. lia.
Qed.

Global Instance in_order_Total : Total in_order.
Proof. exact in_order_total. Qed.

Lemma HdRel_take {A} (R : relation A) (x : A) (l : list A) (n : nat) :
  HdRel R x l -> HdRel R x (take n l).
Proof. intros [|y l' Hxy]; destruct n; simpl; constructor; exact Hxy. Qed.

Lemma Sorted_take {A} (R : relation A) (l : list A) (n : nat) :
  Sorted R l -> Sorted R (take n l).
Proof.
  intros Hs. revert n. induction Hs as [|x l Hs IH Hhd]; intros [|n]; simpl;
    try constructor.
  - apply IH.
  - now apply HdRel_take.
Qed.

Lemma Sorted_slice_to {A} (R : relation A) (l : list A) (n : Z) :
  Sorted R l -> Sorted R (slice_to l n).
Proof. intros Hs. unfold slice_to. destruct (0 <=? n); now apply Sorted_take. Qed.

Lemma Sorted_adjacent {A} (R : relation A) (l : list A) :
  Sorted R l ->
  forall i a b, l !! i = Some a -> l !! S i = Some b -> R a b.
Proof.
  induction 1 as [|x l Hs IH Hhd]; intros i a b Ha Hb; [discriminate|].
  destruct i as [|i]; simpl in *.
  - injection Ha as <-. destruct Hhd as [|y l' Hxy]; [discriminate|].
    simpl in Hb. injection Hb as <-. exact Hxy.
  - eapply IH; eassumption.
Qed.

Lemma aggregate_Sorted (score : nat -> nat -> Z) (rows : list FileChangeRecord) :
  Sorted in_order (aggregate score rows).
Proof. unfold aggregate. apply Sorted_merge_sort. apply _. Qed.
End hotspot_facts.

(** C6: in the report of the [hotspot] sub-command, whether written whole
    as CSV or cut to its first [num] rows for printing, adjacent rows are
    in order: the score does not increase, and on equal scores the file
    name does not decrease. *)
Theorem hotspot_report_sorted {table : Type}
    (load : list source -> table)
    (filter expand : table -> (string -> bool) -> table)
    (rows_of : table -> list Hotspot.FileChangeRecord)
    (score : nat -> nat -> Z) (args : report_args)
    (i : nat) (a b : Hotspot.HotspotRow) :
  let report :=
    report_rows (@handle_hotspot _ _ (rows_Gilot load filter expand rows_of score) args) in
  report !! i = Some a -> report !! S i = Some b ->
  Hotspot.hotspot a >= Hotspot.hotspot b
  /\ (Hotspot.hotspot a = Hotspot.hotspot b ->
      String.leb (Hotspot.file_name a) (Hotspot.file_name b) = true).
Proof.
  intros report Ha Hb.
  assert (Hs : Sorted Hotspot.in_order report).
  { subst report. unfold handle_hotspot, report_rows. simpl.
    destruct (csv args); simpl.
    - apply aggregate_Sorted.
    - apply Sorted_slice_to, aggregate_Sorted. }
  destruct (Sorted_adjacent _ _ Hs i a b Ha Hb) as [Hge Hname].
  split; [exact Hge|]. intros E. apply Is_true_true. now apply Hname.
Qed.

Lemma hotspot_report_sorted_witness :
  let rows :=
    [Hotspot.FileChange "h1" "x" 0 "A"; Hotspot.FileChange "h1" "x" 0 "B";
     Hotspot.FileChange "h2" "x" 1 "A"; Hotspot.FileChange "h2" "x" 1 "C";
     Hotspot.FileChange "h3" "y" 2 "A"] in
  let a := Hotspot.Row "B" 1 1 1 in
  let b := Hotspot.Row "C" 1 1 1 in
  Hotspot.aggregate Hotspot.default_score rows !! 1%nat = Some a
  /\ Hotspot.aggregate Hotspot.default_score rows !! 2%nat = Some b
  /\ Hotspot.hotspot a >= Hotspot.hotspot b
  /\ (Hotspot.hotspot a = Hotspot.hotspot b ->
      String.leb (Hotspot.file_name a) (Hotspot.file_name b) = true).
Proof.
  intros rows a b.
  split; [reflexivity|]. split; [reflexivity|].
  exact (hotspot_report_sorted (fun _ => rows) (fun t _ => t) (fun t _ => t)
           (fun t => t) Hotspot.default_score
           (ReportArgs [Stdin] None "" "2W" None None 30 true 70 false)
           1%nat a b eq_refl eq_refl).
Defined.

(** ** The handlers *)

(** C9: [plot] and [info] call [filter_files] exactly when an allow or an
    ignore list is given non-empty, and otherwise hand the loaded table on
    as it is; [hotspot] and [hotgraph] always expand the loaded table with
    the composed filter and never call [filter_files]. *)
Theorem filter_only_when_given (args : report_args) :
  let is_match := compose_filter (allow_files args) (ignore_files args) in
  let loaded := SFromCsvs (input args) in
  (files_given args ->
   downstream (@handle_plot _ _ free_Gilot args) = SFilterFiles loaded is_match
   /\ downstream (@handle_info _ _ free_Gilot args) = SFilterFiles loaded is_match)
  /\ (~ files_given args ->
      downstream (@handle_plot _ _ free_Gilot args) = loaded
      /\ downstream (@handle_info _ _ free_Gilot args) = loaded)
  /\ (filter_files_calls (downstream (@handle_plot _ _ free_Gilot args)) = 1%nat
      <-> files_given args)
  /\ (filter_files_calls (downstream (@handle_info _ _ free_Gilot args)) = 1%nat
      <-> files_given args)
  /\ downstream (@handle_hotspot _ _ free_Gilot args) = SExpandFiles loaded is_match
  /\ downstream (@handle_hotgraph _ _ free_Gilot args) = SExpandFiles loaded is_match.
Proof.
  intros is_match loaded. subst is_match loaded.
  assert (Hg : files_given args <->
               (truthy_list (allow_files args) || truthy_list (ignore_files args))%bool = true).
  { unfold files_given. rewrite orb_true_iff.
    destruct (allow_files args) as [[|x l]|], (ignore_files args) as [[|y k]|];
      simpl; split; intros H; auto;
      try (destruct H as [(? & ? & H)|(? & ? & H)]; discriminate H);
      try (destruct H as [H|H]; discriminate H);
      eauto. }
  assert (Hhot : downstream (@handle_hotspot _ _ free_Gilot args)
                 = SExpandFiles (SFromCsvs (input args))
                     (compose_filter (allow_files args) (ignore_files args))).
  { unfold handle_hotspot. now destruct (csv args). }
  unfold handle_plot, handle_info, handle_hotgraph.
  destruct (truthy_list (allow_files args) || truthy_list (ignore_files args))%bool
    eqn:E; simpl.
  - assert (Hgiven : files_given args) by now apply Hg.
    split; [now split|].
    split; [intros Hn; now destruct (Hn Hgiven)|].
    split; [now split|]. split; [now split|]. now split.
  - assert (Hnot : ~ files_given args).
    { intros H. apply Hg in H. discriminate H. }
    split; [intros H; now destruct (Hnot H)|].
    split; [now split|].
    split; [split; [discriminate | intros H; now destruct (Hnot H)]|].
    split; [split; [discriminate | intros H; now destruct (Hnot H)]|].
    now split.
Qed.

Lemma filter_only_when_given_witness :
  downstream (@handle_plot _ _ free_Gilot
    (ReportArgs [Stdin] None "GIT LOG REPORT" "2W" (Some ["src/*"]) None 30 false 70 false))
  = SFilterFiles (SFromCsvs [Stdin]) (compose_filter (Some ["src/*"]) None)
  /\ downstream (@handle_info _ _ free_Gilot
       (ReportArgs [Stdin] None "GIT LOG REPORT" "2W" None (Some []) 30 false 70 false))
     = SFromCsvs [Stdin].
Proof.
  split.
  - apply (proj1 (filter_only_when_given
      (ReportArgs [Stdin] None "GIT LOG REPORT" "2W" (Some ["src/*"]) None 30 false 70 false))).
    left. exists "src/*", []. reflexivity.
  - apply (proj1 (proj2 (filter_only_when_given
      (ReportArgs [Stdin] None "GIT LOG REPORT" "2W" None (Some []) 30 false 70 false)))).
    intros [(x & l & H)|(x & l & H)]; discriminate H.
Defined.

(** * Further properties *)

(** ** Patterns made of ordinary characters *)

Lemma plain_char_translate (c : ascii) (r : string) :
  plain_char c = true ->
  translate_from 0 (String c r) = TLit c :: translate_from 0 r.
Proof.
  unfold plain_char. rewrite negb_true_iff, !orb_false_iff.
  intros [[H1 H2] H3]. simpl. now rewrite H1, H2, H3.
Qed.

Lemma fnmatch_plain_prefix (p : string) :
  plain p = true ->
  forall q n,
    fnmatch n (p +:+ q) = true <->
    exists r, n = p +:+ r /\ fnmatch r q = true.
Proof.
  induction p as [|c p IH]; intros Hp q n.
  - change ("" +:+ q) with q. split.
    + intros H. now exists n.
    + intros (r & -> & H). exact H.
  - simpl in Hp. apply andb_true_iff in Hp as [Hc Hp].
    change (String c p +:+ q) with (String c (p +:+ q)).
    unfold fnmatch, translate. rewrite (plain_char_translate c _ Hc).
    destruct n as [|a n]; simpl.
    + split; [discriminate|]. intros (r & Hr & _). discriminate Hr.
    + rewrite andb_true_iff. fold (translate (p +:+ q)).
      fold (fnmatch n (p +:+ q)). rewrite (IH Hp q n). split.
      * intros [Ha (r & -> & Hr)]. apply Ascii.eqb_eq in Ha as ->.
        now exists r.
      * intros (r & Hr & Hq). change (String c p +:+ r) with (String c (p +:+ r)) in Hr.
        injection Hr as -> ->. split; [apply Ascii.eqb_refl | now exists r].
Qed.

Lemma fnmatch_plain_iff (p n : string) :
  plain p = true -> (fnmatch n p = true <-> n = p).
Proof.
  intros Hp. rewrite <- (append_empty_r p) at 1.
  rewrite (fnmatch_plain_prefix p Hp). split.
  - intros (r & -> & Hr). apply fnmatch_empty_pattern in Hr as ->.
    apply append_empty_r.
  - intros ->. exists "". split; [symmetry; apply append_empty_r | reflexivity].
Qed.

(** X1: a pattern without [*], [?] and [[] matches the name equal to it
    and no other. *)
Theorem fnmatch_plain_exact (p n : string) :
  plain p = true -> (fnmatch n p = true <-> n = p).
Proof. apply fnmatch_plain_iff. Qed.

Lemma fnmatch_plain_exact_witness :
  fnmatch "setup.py" "setup.py" = true /\ fnmatch "setup.pyc" "setup.py" = false.
Proof.
  split.
  - apply (proj2 (fnmatch_plain_exact "setup.py" "setup.py" eq_refl)). reflexivity.
  - destruct (fnmatch "setup.pyc" "setup.py") eqn:E; [|reflexivity].
    apply (proj1 (fnmatch_plain_exact "setup.py" "setup.pyc" eq_refl)) in E.
    discriminate E.
Defined.

(** X2: for ordinary [p] and [q], the pattern [p*q] matches exactly the
    names that start with [p] and go on to end with [q]; so ['src/*']
    selects the names under [src/] at any depth and ['*.rb'] the names
    ending in [.rb]. *)
Theorem fnmatch_prefix_star_suffix (p q n : string) :
  plain p = true -> plain q = true ->
  (fnmatch n (p +:+ String "*" q) = true <-> exists m, n = p +:+ m +:+ q).
Proof.
  intros Hp Hq. rewrite (fnmatch_plain_prefix p Hp). split.
  - intros (r & -> & Hr). apply fnmatch_star in Hr as (s1 & s2 & -> & H2).
    apply (fnmatch_plain_iff q s2 Hq) in H2 as ->. now exists s1.
  - intros (m & ->). exists (m +:+ q). split; [reflexivity|].
    apply fnmatch_star. exists m, q. split; [reflexivity|].
    now apply fnmatch_plain_iff.
Qed.

Lemma fnmatch_prefix_star_suffix_witness :
  fnmatch "src/gilot/app.py" "src/*.py" = true
  /\ fnmatch "lib/core.rb" "*.rb" = true.
Proof.
  split.
  - apply (proj2 (fnmatch_prefix_star_suffix "src/" ".py" "src/gilot/app.py"
                    eq_refl eq_refl)).
    exists "gilot/app". reflexivity.
  - apply (proj2 (fnmatch_prefix_star_suffix "" ".rb" "lib/core.rb"
                    eq_refl eq_refl)).
    exists "lib/core". reflexivity.
Defined.

(** ** Laws of the file filter *)

Lemma matches_any_In (n : string) (l : list string) :
  matches_any n l = true <-> exists p, In p l /\ fnmatch n p = true.
Proof. unfold matches_any. apply existsb_exists. Qed.

Lemma matches_any_same (n : string) (l l' : list string) :
  (forall p, In p l <-> In p l') -> matches_any n l = matches_any n l'.
Proof.
  intros H. apply eq_true_iff_eq. rewrite !matches_any_In.
  split; intros (p & Hp & Hm); exists p; (split; [now apply H | exact Hm]).
Qed.

Lemma matches_any_app (n : string) (l l' : list string) :
  matches_any n (l ++ l')%list = (matches_any n l || matches_any n l')%bool.
Proof. unfold matches_any. apply existsb_app. Qed.

(** X3: only the set of patterns counts. Two allow lists with the same
    members and two deny lists with the same members build the same
    predicate, whatever the order and the repetitions. *)
Theorem compose_filter_same_patterns (a a' d d' : list string) (n : string) :
  (forall p, In p a <-> In p a') ->
  (forall p, In p d <-> In p d') ->
  compose_filter (Some a) (Some d) n = compose_filter (Some a') (Some d') n.
Proof.
  intros Ha Hd. rewrite !compose_filter_unfold, !or_default_deny.
  rewrite (matches_any_same n d d' Hd). f_equal.
  destruct a as [|x a], a' as [|x' a'].
  - reflexivity.
  - destruct (proj2 (Ha x') (or_introl eq_refl)).
  - destruct (proj1 (Ha x) (or_introl eq_refl)).
  - rewrite !or_default_cons. now apply matches_any_same.
Qed.

Lemma compose_filter_same_patterns_witness :
  compose_filter (Some ["*.py"; "*.rb"]) (Some ["test_*"]) "app.py"
  = compose_filter (Some ["*.rb"; "*.py"; "*.rb"]) (Some ["test_*"; "test_*"]) "app.py".
Proof.
  apply compose_filter_same_patterns; intros p; simpl; tauto.
Defined.

(** X4: patterns add up. Joining two non-empty allow lists accepts what
    either accepts, and joining two deny lists accepts what both accept;
    so a pattern added to a non-empty allow list never rejects a name that
    was accepted, and a pattern added to a deny list never accepts a name
    that was rejected. (An allow list that was empty stood for [*], and a
    pattern added to it does narrow the filter.) *)
Theorem compose_filter_app (a1 a2 d1 d2 : list string)
    (allow deny : option (list string)) (n : string) :
  (a1 <> [] -> a2 <> [] ->
   compose_filter (Some (a1 ++ a2)%list) deny n
   = (compose_filter (Some a1) deny n || compose_filter (Some a2) deny n)%bool)
  /\ compose_filter allow (Some (d1 ++ d2)%list) n
     = (compose_filter allow (Some d1) n && compose_filter allow (Some d2) n)%bool
  /\ (a1 <> [] -> compose_filter (Some a1) deny n = true ->
      compose_filter (Some (a1 ++ a2)%list) deny n = true)
  /\ (compose_filter allow (Some d1) n = false ->
      compose_filter allow (Some (d1 ++ d2)%list) n = false).
Proof.
  assert (Hdeny : compose_filter allow (Some (d1 ++ d2)%list) n
     = (compose_filter allow (Some d1) n && compose_filter allow (Some d2) n)%bool).
  { rewrite !compose_filter_unfold, !or_default_deny, matches_any_app.
    destruct (matches_any n (or_default allow ["*"])),
      (matches_any n d1), (matches_any n d2); reflexivity. }
  assert (Hne : a1 <> [] -> (a1 ++ a2)%list <> []).
  { destruct a1; [congruence | discriminate]. }
  split; [|split; [exact Hdeny|split]].
  - intros H1 H2. rewrite !compose_filter_unfold.
    rewrite (or_default_nonempty a1 _ H1), (or_default_nonempty a2 _ H2).
    rewrite (or_default_nonempty _ _ (Hne H1)), matches_any_app.
    destruct (matches_any n a1), (matches_any n a2), (negb _); reflexivity.
  - intros H1. rewrite !compose_filter_unfold.
    rewrite (or_default_nonempty a1 _ H1), (or_default_nonempty _ _ (Hne H1)).
    rewrite matches_any_app.
    destruct (matches_any n a1); [intros H; exact H | discriminate].
  - intros H. rewrite Hdeny, H. reflexivity.
Qed.

Lemma compose_filter_app_witness :
  compose_filter (Some (["src/*"] ++ ["*.rb"])%list) None "lib/a.rb"
  = (compose_filter (Some ["src/*"]) None "lib/a.rb"
     || compose_filter (Some ["*.rb"]) None "lib/a.rb")%bool.
Proof.
  apply (proj1 (compose_filter_app ["src/*"] ["*.rb"] [] [] None None "lib/a.rb"));
    discriminate.
Defined.

(** X5: when neither option is given with a pattern, the filter that
    [plot] and [info] skip is the one that accepts every name: leaving
    [filter_files] out drops no file that the composed filter would keep
    out. *)
Theorem skipped_filter_accepts_all (args : report_args) (n : string) :
  ~ files_given args ->
  compose_filter (allow_files args) (ignore_files args) n = true.
Proof.
  unfold files_given. intros Hn. rewrite compose_filter_unfold.
  destruct (allow_files args) as [[|x a]|].
  2: { destruct Hn. left. eauto. }
  all: destruct (ignore_files args) as [[|y d]|];
    try (destruct Hn; right; eauto; fail);
    simpl or_default; now rewrite matches_any_star.
Qed.

Lemma skipped_filter_accepts_all_witness :
  compose_filter (Some []) None "any/file.txt" = true.
Proof.
  apply (skipped_filter_accepts_all
           (ReportArgs [Stdin] None "GIT LOG REPORT" "2W" (Some []) None 30 false 70 false)).
  intros [(x & l & H)|(x & l & H)]; discriminate H.
Defined.

(** ** What the closure shares with its caller *)

(** [x or d] either returns the caller's own non-empty list and leaves the
    heap alone, or allocates [d] at an unused address. *)
Lemma or_default_shape (o : option Store.loc) (d : list string) (h : Store.heap) :
  live h o ->
  exists r h',
    Store.or_default o d h = Some (r, h')
    /\ ((exists x l, o = Some r /\ h !! r = Some (x :: l) /\ h' = h)
        \/ ((o = None \/ exists r0, o = Some r0 /\ h !! r0 = Some [])
            /\ h !! r = None /\ h' = <[r := d]> h)).
Proof.
  intros Hlive.
  destruct (alloc_spec d h) as (rf & Hrf & Hnone).
  destruct o as [r0|]; simpl in *.
  - destruct Hlive as [l Hl]. unfold Store.bind, Store.read. rewrite Hl.
    destruct l as [|x l].
    + exists rf, (<[rf := d]> h). split; [exact Hrf|]. right.
      split; [right; exists r0; now split|]. now split.
    + exists r0, h. split; [reflexivity|]. left. exists x, l. now split.
  - exists rf, (<[rf := d]> h). split; [exact Hrf|]. right.
    split; [now left|]. now split.
Qed.

Lemma lookup_insert_fresh (h : Store.heap) (r r0 : nat) (d l : list string) :
  h !! r = None -> h !! r0 = Some l -> <[r := d]> h !! r0 = Some l.
Proof.
  intros Hn H0. rewrite lookup_insert_ne; [exact H0|].
  intros Heq. subst r0. rewrite Hn in H0. discriminate H0.
Qed.

Lemma compose_filter_extends (h h' : Store.heap) (allow deny : option Store.loc)
    (c : Store.closure) :
  live h allow -> live h deny ->
  Store.compose_filter allow deny h = Some (c, h') ->
  (forall r l, h !! r = Some l -> h' !! r = Some l)
  /\ (size h' <= size h + 2)%nat.
Proof.
  intros Ha Hd.
  destruct (or_default_shape allow ["*"] h Ha) as (a & h1 & Ea & Sa).
  assert (Hext1 : forall r l, h !! r = Some l -> h1 !! r = Some l).
  { destruct Sa as [(x & l & _ & _ & ->)|(_ & Hn & ->)]; [auto|].
    intros r l. now apply lookup_insert_fresh. }
  assert (Hsz1 : (size h1 <= size h + 1)%nat).
  { destruct Sa as [(x & l & _ & _ & ->)|(_ & Hn & ->)]; [lia|].
    rewrite map_size_insert_None by exact Hn. lia. }
  assert (Hd1 : live h1 deny).
  { destruct deny as [r|]; [|exact I]. destruct Hd as [l Hl].
    exists l. now apply Hext1. }
  destruct (or_default_shape deny [] h1 Hd1) as (dr & h2 & Ed & Sd).
  unfold Store.compose_filter, Store.bind. rewrite Ea, Ed.
  intros [= <- <-]. split.
  - intros r l Hr. apply Hext1 in Hr.
    destruct Sd as [(x & l' & _ & _ & ->)|(_ & Hn & ->)]; [exact Hr|].
    now apply lookup_insert_fresh.
  - destruct Sd as [(x & l' & _ & _ & ->)|(_ & Hn & ->)]; [lia|].
    rewrite map_size_insert_None by exact Hn. lia.
Qed.

(** X6: building the predicate changes no list that exists: every object
    of the heap keeps its content, and at most two objects are added (the
    default lists). *)
Theorem compose_filter_frame (h h' : Store.heap) (allow deny : option Store.loc)
    (c : Store.closure) :
  live h allow -> live h deny ->
  Store.compose_filter allow deny h = Some (c, h') ->
  (forall r l, h !! r = Some l -> h' !! r = Some l)
  /\ (size h' <= size h + 2)%nat.
Proof. apply compose_filter_extends. Qed.

Lemma compose_filter_frame_witness :
  exists c h',
    Store.compose_filter (Some 0%nat) None {[ 0%nat := ["*.py"] ]} = Some (c, h')
    /\ h' !! 0%nat = Some ["*.py"]
    /\ (size h' <= 3)%nat.
Proof.
  assert (Hl : live ({[ 0%nat := ["*.py"] ]} : Store.heap) (Some 0%nat)).
  { simpl. rewrite lookup_singleton_eq. eauto. }
  eexists _, _. split; [reflexivity|].
  destruct (compose_filter_frame {[ 0%nat := ["*.py"] ]} _ (Some 0%nat) None _
              Hl I eq_refl) as [Hf Hs].
  split.
  - apply Hf. apply lookup_singleton_eq.
  - rewrite map_size_singleton in Hs. exact Hs.
Defined.

Lemma closure_addresses (h h' : Store.heap) (r : nat) (deny : option Store.loc)
    (c : Store.closure) (cur : list string) :
  h !! r = Some cur -> live h deny -> deny <> Some r ->
  Store.compose_filter (Some r) deny h = Some (c, h') ->
  (cur <> [] -> Store.allow_list c = r)
  /\ (cur = [] -> Store.allow_list c <> r)
  /\ Store.deny_list c <> r.
Proof.
  intros Hr Hd Hne.
  assert (Ha : live h (Some r)) by (exists cur; exact Hr).
  destruct (or_default_shape (Some r) ["*"] h Ha) as (a & h1 & Ea & Sa).
  assert (Hr1 : h1 !! r = Some cur).
  { destruct Sa as [(x & l & _ & _ & ->)|(_ & Hn & ->)]; [exact Hr|].
    now apply lookup_insert_fresh. }
  assert (Hd1 : live h1 deny).
  { destruct deny as [r2|]; [|exact I]. destruct Hd as [l Hl]. exists l.
    destruct Sa as [(x & l' & _ & _ & ->)|(_ & Hn & ->)]; [exact Hl|].
    now apply lookup_insert_fresh. }
  destruct (or_default_shape deny [] h1 Hd1) as (dr & h2 & Ed & Sd).
  unfold Store.compose_filter, Store.bind. rewrite Ea, Ed.
  intros [= <- <-]. simpl. split; [|split].
  - intros Hcur.
    destruct Sa as [(x & l & [= <-] & _ & _)|([Ho|(r0 & [= <-] & H0)] & _ & _)].
    + reflexivity.
    + discriminate Ho.
    + rewrite Hr in H0. injection H0 as ->. now destruct Hcur.
  - intros ->.
    destruct Sa as [(x & l & [= <-] & Hx & _)|(_ & Hn & _)].
    + rewrite Hr in Hx. discriminate Hx.
    + intros ->. rewrite Hr in Hn. discriminate Hn.
  - destruct Sd as [(x & l & -> & _ & _)|(_ & Hn & _)].
    + intros ->. now apply Hne.
    + intros ->. rewrite Hr1 in Hn. discriminate Hn.
Qed.

(** X7: the predicate shares a non-empty allow list with its caller and
    reads it at every call, so a later change of that list changes the
    predicate (an emptied list then accepts nothing); an empty allow list
    is replaced by a list of the closure's own, and a later change of the
    caller's list leaves the predicate as it was. *)
Theorem closure_shares_allow_list (h h' : Store.heap) (r : nat)
    (deny : option Store.loc) (c : Store.closure) (cur : list string) :
  h !! r = Some cur -> live h deny -> deny <> Some r ->
  Store.compose_filter (Some r) deny h = Some (c, h') ->
  forall new n,
    Store.bind (store_write r new) (fun _ => Store.match_ c n) h'
    = Some (match cur with
            | _ :: _ =>
                (matches_any n new
                 && negb (matches_any n (or_default (Store.contents h deny) [])))%bool
            | [] => compose_filter None (Store.contents h deny) n
            end, <[r := new]> h').
Proof.
  intros Hr Hd Hne Ec new n.
  assert (Ha : live h (Some r)) by (exists cur; exact Hr).
  destruct (closure_addresses h h' r deny c cur Hr Hd Hne Ec) as (Hal & Hfr & Hdl).
  destruct (compose_filter_spec (Some r) deny h Ha Hd) as (c0 & h0 & E0 & Ca & Cd).
  rewrite Ec in E0. injection E0 as <- <-.
  destruct (compose_filter_extends h h' (Some r) deny c Ha Hd Ec) as [Hext _].
  unfold Store.bind at 1, store_write. rewrite (Hext r cur Hr).
  assert (Hdeny : <[r := new]> h' !! Store.deny_list c
                  = Some (or_default (Store.contents h deny) [])).
  { rewrite lookup_insert_ne by congruence. exact Cd. }
  destruct cur as [|x l].
  - assert (Hallow : <[r := new]> h' !! Store.allow_list c = Some ["*"]).
    { rewrite lookup_insert_ne by (specialize (Hfr eq_refl); congruence).
      rewrite Ca. simpl. now rewrite Hr. }
    rewrite (match_spec c _ _ _ n Hallow Hdeny). reflexivity.
  - assert (Hallow : <[r := new]> h' !! Store.allow_list c = Some new).
    { rewrite Hal by discriminate. apply lookup_insert_eq. }
    rewrite (match_spec c _ _ _ n Hallow Hdeny). reflexivity.
Qed.

Lemma closure_shares_allow_list_witness :
  exists c h',
    Store.compose_filter (Some 0%nat) None {[ 0%nat := ["*.py"] ]} = Some (c, h')
    /\ Store.match_ c "a.rb" h' = Some (false, h')
    /\ Store.bind (store_write 0%nat ["*.rb"]) (fun _ => Store.match_ c "a.rb") h'
       = Some (true, <[0%nat := ["*.rb"]]> h').
Proof.
  assert (Hl : ({[ 0%nat := ["*.py"] ]} : Store.heap) !! 0%nat = Some ["*.py"])
    by apply lookup_singleton_eq.
  eexists _, _. split; [reflexivity|]. split; [reflexivity|].
  exact (closure_shares_allow_list {[ 0%nat := ["*.py"] ]} _ 0%nat None _ ["*.py"]
           Hl I ltac:(discriminate) eq_refl ["*.rb"] "a.rb").
Defined.

(** ** More on the duration dispatch *)

(** X8: [until] has an effect only together with [since]: without a
    non-empty [since] the resolution is the same whatever [until] holds,
    for every implementation of the [Duration] constructors. *)
Theorem until_alone_is_ignored {D : Type} `{DC : DurationClass D}
    (args : log_args) (u : option string) :
  truthy_str (since args) = None ->
  args_to_duration args
  = args_to_duration (LogArgs (since args) u (month args)).
Proof.
  intros Hs. destruct (truthy_str (month args)) as [ms|] eqn:Hm.
  - rewrite (dispatch_months args ms Hs Hm).
    now rewrite (dispatch_months (LogArgs (since args) u (month args)) ms Hs Hm).
  - rewrite (dispatch_default args Hs Hm).
    now rewrite (dispatch_default (LogArgs (since args) u (month args)) Hs Hm).
Qed.

Lemma until_alone_is_ignored_witness :
  @args_to_duration _ free_Duration (LogArgs None (Some "2020-06-01") (Some "3"))
  = @args_to_duration _ free_Duration (LogArgs None None (Some "3")).
Proof.
  exact (@until_alone_is_ignored _ free_Duration
           (LogArgs None (Some "2020-06-01") (Some "3")) None eq_refl).
Defined.

(** *** Decimal month counts *)

Lemma digit_char_facts (d : nat) :
  (d < 10)%nat ->
  PyInt.is_digit (digit_char d) = true
  /\ PyInt.is_space (digit_char d) = false
  /\ Ascii.eqb (digit_char d) "_" = false
  /\ PyInt.digit_value (digit_char d) = Z.of_nat d
  /\ digit_char d <> "-"%char /\ digit_char d <> "+"%char.
Proof.
  intros Hd. do 10 (destruct d as [|d]; [vm_compute; repeat split; discriminate|]).
  lia.
Qed.

Lemma digits_numeral (ds : list nat) :
  Forall (fun d => (d < 10)%nat) ds ->
  forall acc b,
    PyInt.digits acc b (numeral ds)
    = match ds with
      | [] => if b then Some acc else None
      | _ :: _ => Some (numeral_value acc ds)
      end.
Proof.
  induction 1 as [|d ds Hd _ IH]; intros acc b; [reflexivity|].
  destruct (digit_char_facts d Hd) as (Hdig & _ & _ & Hval & _).
  cbn [numeral PyInt.digits numeral_value]. rewrite Hdig, Hval, IH.
  now destruct ds.
Qed.

Lemma rstrip_numeral (ds : list nat) :
  Forall (fun d => (d < 10)%nat) ds ->
  PyInt.rstrip (numeral ds) = numeral ds.
Proof.
  induction 1 as [|d ds Hd _ IH]; [reflexivity|].
  destruct (digit_char_facts d Hd) as (_ & Hsp & _).
  cbn [numeral PyInt.rstrip]. rewrite IH, Hsp. now destruct (numeral ds).
Qed.

Lemma digit_count_numeral (ds : list nat) :
  Forall (fun d => (d < 10)%nat) ds ->
  PyInt.digit_count (numeral ds) = Z.of_nat (length ds).
Proof.
  induction 1 as [|d ds Hd _ IH]; [reflexivity|].
  destruct (digit_char_facts d Hd) as (Hdig & _).
  cbn [numeral PyInt.digit_count length]. rewrite Hdig, IH. lia.
Qed.

Lemma int_unsigned (s : string) (c : ascii) (r : string) :
  c <> "-"%char -> c <> "+"%char ->
  PyInt.rstrip (PyInt.lstrip s) = String c r ->
  PyInt.int s
  = match PyInt.digits 0 false (String c r) with
    | Some n =>
        if PyInt.digit_count (String c r) <=? PyInt.max_str_digits
        then ok n else raise ValueError
    | None => raise ValueError
    end.
Proof.
  intros Hminus Hplus E. unfold PyInt.int. rewrite E. clear E.
  destruct c as [[] [] [] [] [] [] [] []];
    solve [reflexivity | now destruct Hminus | now destruct Hplus].
Qed.

Lemma int_negative (s r : string) :
  PyInt.rstrip (PyInt.lstrip s) = String "-" r ->
  PyInt.int s
  = match PyInt.digits 0 false r with
    | Some n =>
        if PyInt.digit_count r <=? PyInt.max_str_digits
        then ok (- n) else raise ValueError
    | None => raise ValueError
    end.
Proof.
  intros E. unfold PyInt.int. rewrite E.
  change (PyInt.digit_count (String "-" r)) with (0 + PyInt.digit_count r).
  rewrite Z.add_0_l. now destruct (PyInt.digits 0 false r).
Qed.

Lemma int_numeral (d : nat) (ds : list nat) :
  Forall (fun d => (d < 10)%nat) (d :: ds) ->
  Z.of_nat (length (d :: ds)) <= PyInt.max_str_digits ->
  PyInt.int (numeral (d :: ds)) = ok (numeral_value 0 (d :: ds))
  /\ PyInt.int (String "-" (numeral (d :: ds)))
     = ok (- numeral_value 0 (d :: ds)).
Proof.
  intros Hall Hlen. pose proof (Forall_inv Hall) as Hd.
  destruct (digit_char_facts d Hd) as (_ & Hsp & _ & _ & Hminus & Hplus).
  pose proof (rstrip_numeral _ Hall) as Hrs.
  pose proof (digits_numeral _ Hall 0 false) as Hdg.
  pose proof (digit_count_numeral _ Hall) as Hcnt.
  assert (Hle : (PyInt.digit_count (numeral (d :: ds)) <=? PyInt.max_str_digits) = true).
  { rewrite Hcnt. now apply Z.leb_le. }
  split.
  - rewrite (int_unsigned _ (digit_char d) (numeral ds) Hminus Hplus).
    + change (String (digit_char d) (numeral ds)) with (numeral (d :: ds)).
      now rewrite Hdg, Hle.
    + change (numeral (d :: ds)) with (String (digit_char d) (numeral ds)) in *.
      cbn [PyInt.lstrip]. rewrite Hsp. exact Hrs.
  - rewrite (int_negative _ (numeral (d :: ds))).
    + now rewrite Hdg, Hle.
    + change (PyInt.lstrip (String "-" (numeral (d :: ds))))
        with (String "-" (numeral (d :: ds))).
      cbn [PyInt.rstrip]. fold PyInt.rstrip. rewrite Hrs. reflexivity.
Qed.

(** X9: when [since] is absent, or is given while [until] is absent, a
    month count written with at most 4300 decimal digits is handed to
    [Duration.months] as the number the digits denote, leading zeros
    included, and with a minus sign in front as the negative number; the
    dispatch hands on zero and negative counts as they are. *)
Theorem month_numeral_forwarded {D : Type} `{DC : DurationClass D}
    (d : nat) (ds : list nat) (u : option string) (c : ascii) (s : string) :
  Forall (fun d => (d < 10)%nat) (d :: ds) ->
  Z.of_nat (length (d :: ds)) <= PyInt.max_str_digits ->
  let m := numeral (d :: ds) in
  let v := numeral_value 0 (d :: ds) in
  args_to_duration (LogArgs None u (Some m)) = Duration_months v None
  /\ args_to_duration (LogArgs None u (Some (String "-" m)))
     = Duration_months (- v) None
  /\ args_to_duration (LogArgs (Some (String c s)) None (Some m))
     = Duration_months v (Some (String c s))
  /\ args_to_duration (LogArgs (Some (String c s)) None (Some (String "-" m)))
     = Duration_months (- v) (Some (String c s)).
Proof.
  intros Hall Hlen m v. subst m v.
  destruct (int_numeral d ds Hall Hlen) as [Hpos Hneg].
  split; [|split; [|split]].
  - rewrite (dispatch_months _ (numeral (d :: ds))); [|reflexivity|reflexivity].
    now rewrite Hpos.
  - rewrite (dispatch_months _ (String "-" (numeral (d :: ds))));
      [|reflexivity|reflexivity].
    now rewrite Hneg.
  - rewrite (dispatch_since_months _ (String c s) (numeral (d :: ds)));
      [|reflexivity|reflexivity|reflexivity].
    now rewrite Hpos.
  - rewrite (dispatch_since_months _ (String c s) (String "-" (numeral (d :: ds))));
      [|reflexivity|reflexivity|reflexivity].
    now rewrite Hneg.
Qed.

Lemma month_numeral_forwarded_witness :
  @args_to_duration _ free_Duration (LogArgs None None (Some "012"))
  = ok (CallMonths 12 None)
  /\ @args_to_duration _ free_Duration (LogArgs (Some "2020-01-01") None (Some "-012"))
     = ok (CallMonths (-12) (Some "2020-01-01")).
Proof.
  pose proof (@month_numeral_forwarded _ free_Duration 0%nat [1%nat; 2%nat]
                None "2" "020-01-01"
                ltac:(repeat constructor) ltac:(vm_compute; discriminate)) as H.
  destruct H as (H1 & _ & _ & H4). split; [exact H1 | exact H4].
Defined.

(** ** The [log] sub-command *)

(** X10: [log] fails with [ValueError], before the repository is read and
    whatever the implementation of [gilot], when the month is an ASCII
    string that is not an integer literal and [since] and [until] are not
    both given; when both are given the month is never converted, and the
    table read is the one of [Duration.range(since, until)]. *)
Theorem handle_log_month_conversion {D table : Type}
    `{DC : DurationClass D} `{GL : GilotLog D table} (args : log_namespace) :
  (forall ms,
      truthy_str (since (duration_args args)) = None
      \/ truthy_str (until (duration_args args)) = None ->
      truthy_str (month (duration_args args)) = Some ms ->
      ascii_only ms = true ->
      PyInt.int ms = raise ValueError ->
      handle_log args = raise ValueError)
  /\ (forall s u,
        truthy_str (since (duration_args args)) = Some s ->
        truthy_str (until (duration_args args)) = Some u ->
        handle_log args
        = (let* duration := Duration_range s u in
           ok (LogToCsv (from_dir (repo args) (branch args) duration (full args))
                 (log_output args)))).
Proof.
  split.
  - intros ms Hnot Hm _ Hint. unfold handle_log.
    destruct (truthy_str (since (duration_args args))) as [s|] eqn:Hs.
    + destruct Hnot as [Hnot|Hu]; [discriminate Hnot|].
      rewrite (dispatch_since_months _ s ms Hs Hu Hm). now rewrite Hint.
    + rewrite (dispatch_months _ ms Hs Hm). now rewrite Hint.
  - intros s u Hs Hu. unfold handle_log.
    now rewrite (dispatch_range _ s u Hs Hu).
Qed.

Lemma handle_log_month_conversion_witness :
  @handle_log _ _ free_Duration (free_GilotLog _)
    (LogNamespace "." "origin/HEAD" None false (LogArgs None None (Some "six")))
  = raise ValueError
  /\ @handle_log _ _ free_Duration (free_GilotLog _)
       (LogNamespace "." "origin/HEAD" None false
          (LogArgs (Some "2020-01-01") (Some "2020-06-01") (Some "six")))
     = ok (LogToCsv (SFromDir "." "origin/HEAD"
                       (CallRange "2020-01-01" "2020-06-01") false) None).
Proof.
  split.
  - apply (proj1 (@handle_log_month_conversion _ _ free_Duration (free_GilotLog _)
             (LogNamespace "." "origin/HEAD" None false (LogArgs None None (Some "six"))))
             "six"); [left|..]; reflexivity.
  - apply (proj2 (@handle_log_month_conversion _ _ free_Duration (free_GilotLog _)
             (LogNamespace "." "origin/HEAD" None false
                (LogArgs (Some "2020-01-01") (Some "2020-06-01") (Some "six"))))
             "2020-01-01" "2020-06-01"); reflexivity.
Defined.

(** ** Logging set-up *)

Lemma log_level_formula (verbose : Z) :
  0 <= verbose -> log_level verbose = 30 - 10 * Z.min verbose 3.
Proof. unfold log_level, Logging.NOTSET, Logging.WARNING. lia. Qed.

(** X11: after [init_logger] in a process without handlers, a record of
    a positive level is written, once, exactly when its level is at least
    [WARNING - 10 * min(verbose, 3)]: warnings and worse always, [INFO]
    from one [-v] on, [DEBUG] from two on, and from three on every record
    of a positive level; a record of level [0] is never written. *)
Theorem init_logger_levels (verbose levelno : Z) (root : Z) :
  0 <= verbose -> 0 < levelno ->
  let st := init_logger verbose (LoggingState root []) in
  (emitted_by st levelno <> [] <-> 30 - 10 * Z.min verbose 3 <= levelno)
  /\ (length (emitted_by st levelno) <= 1)%nat
  /\ (Logging.WARNING <= levelno -> emitted_by st levelno <> [])
  /\ (emitted_by st Logging.INFO <> [] <-> 1 <= verbose)
  /\ (emitted_by st Logging.DEBUG <> [] <-> 2 <= verbose)
  /\ (3 <= verbose -> emitted_by st levelno <> [])
  /\ emitted_by st 0 = [].
Proof.
  intros Hv Hl st.
  assert (E : forall l, 0 < l ->
                emitted_by st l
                = if log_level verbose <=? l then [log_level verbose] else []).
  { intros l Hpos. unfold emitted_by. subst st. cbn [init_logger root_level handler_levels].
    unfold Logging.NOTSET.
    destruct (Z.ltb_spec 0 l); [|lia]. destruct (Z.leb_spec 0 l); [|lia].
    reflexivity. }
  assert (Hiff : forall l, 0 < l ->
                   (emitted_by st l <> [] <-> 30 - 10 * Z.min verbose 3 <= l)).
  { intros l Hpos. rewrite (E l Hpos), <- (log_level_formula verbose Hv).
    destruct (Z.leb_spec (log_level verbose) l); split; intros H';
      try lia; try discriminate; now destruct H'. }
  split; [now apply Hiff|]. split.
  { rewrite (E levelno Hl). destruct (_ <=? _); simpl; lia. }
  split; [intros Hw; apply (Hiff levelno Hl); unfold Logging.WARNING in Hw; lia|].
  split; [rewrite Hiff by (unfold Logging.INFO; lia); unfold Logging.INFO; lia|].
  split; [rewrite Hiff by (unfold Logging.DEBUG; lia); unfold Logging.DEBUG; lia|].
  split; [intros H3; apply (Hiff levelno Hl); lia|].
  reflexivity.
Qed.

Lemma init_logger_levels_witness :
  emitted_by (init_logger 1 (LoggingState Logging.WARNING [])) Logging.INFO <> []
  /\ ~ emitted_by (init_logger 1 (LoggingState Logging.WARNING [])) Logging.DEBUG <> [].
Proof.
  pose proof (init_logger_levels 1 Logging.INFO Logging.WARNING
                ltac:(lia) ltac:(unfold Logging.INFO; lia)) as H.
  destruct H as (_ & _ & _ & Hi & Hd & _). split.
  - apply Hi. lia.
  - intros H. apply Hd in H. lia.
Defined.

(** ** The rows the [hotspot] sub-command prints *)

(** X12: without [--csv] the rows printed are the first [num] rows of the
    report that [--csv] writes whole; a [num] beyond the end prints them
    all, and a negative [num] leaves out that many rows at the end. *)
Theorem hotspot_prints_first_rows {table : Type}
    (load : list source -> table)
    (filter expand : table -> (string -> bool) -> table)
    (rows_of : table -> list Hotspot.FileChangeRecord)
    (score : nat -> nat -> Z)
    (i : list source) (o : option string) (nm ts : string)
    (a ig : option (list string)) (n r : Z) (sr : bool) :
  let G := rows_Gilot load filter expand rows_of score in
  let whole := report_rows (@handle_hotspot _ _ G (ReportArgs i o nm ts a ig n true r sr)) in
  let printed := report_rows (@handle_hotspot _ _ G (ReportArgs i o nm ts a ig n false r sr)) in
  (0 <= n ->
   printed = take (Z.to_nat n) whole
   /\ length printed = Nat.min (Z.to_nat n) (length whole))
  /\ (Z.of_nat (length whole) <= n -> printed = whole)
  /\ (n < 0 -> printed = take (length whole - Z.to_nat (- n)) whole).
Proof.
  intros G whole printed.
  assert (E : printed = Hotspot.slice_to whole n) by reflexivity.
  rewrite E. unfold Hotspot.slice_to. split; [|split].
  - intros Hn. destruct (Z.leb_spec 0 n); [|lia].
    split; [reflexivity | apply length_take].
  - intros Hn. destruct (Z.leb_spec 0 n); [|lia].
    apply take_ge. lia.
  - intros Hn. destruct (Z.leb_spec 0 n); [lia|].
    f_equal. lia.
Qed.

Lemma hotspot_prints_first_rows_witness :
  let rows :=
    [Hotspot.FileChange "h1" "x" 0 "A"; Hotspot.FileChange "h1" "x" 0 "B";
     Hotspot.FileChange "h2" "x" 1 "A"; Hotspot.FileChange "h2" "x" 1 "C";
     Hotspot.FileChange "h3" "y" 2 "A"] in
  let G := rows_Gilot (fun _ => rows) (fun t _ => t) (fun t _ => t)
             (fun t => t) Hotspot.default_score in
  report_rows (@handle_hotspot _ _ G
                 (ReportArgs [Stdin] None "" "2W" None None 1 false 70 false))
  = [Hotspot.Row "A" 3 2 6]
  /\ report_rows (@handle_hotspot _ _ G
                    (ReportArgs [Stdin] None "" "2W" None None (-1) false 70 false))
     = [Hotspot.Row "A" 3 2 6; Hotspot.Row "B" 1 1 1].
Proof.
  intros rows G. split.
  - exact (proj1 (proj1 (hotspot_prints_first_rows (fun _ => rows) (fun t _ => t)
             (fun t _ => t) (fun t => t) Hotspot.default_score
             [Stdin] None "" "2W" None None 1 70 false) ltac:(lia))).
  - exact (proj2 (proj2 (hotspot_prints_first_rows (fun _ => rows) (fun t _ => t)
             (fun t _ => t) (fun t => t) Hotspot.default_score
             [Stdin] None "" "2W" None None (-1) 70 false)) ltac:(lia)).
Defined.

(** X13: options that are declared and have no effect. [hotgraph]
    declares [--csv] and never reads it; [info] declares [--timeslot] and
    never reads it; with [--csv], [hotspot] does not read [--num]. This
    holds for every implementation of [gilot]. *)
Theorem declared_options_without_effect {table report : Type}
    `{G : Gilot table report}
    (i : list source) (o : option string) (nm ts : string)
    (a ig : option (list string)) (n r : Z) (c sr : bool) :
  (forall c',
      handle_hotgraph (ReportArgs i o nm ts a ig n c r sr)
      = handle_hotgraph (ReportArgs i o nm ts a ig n c' r sr))
  /\ (forall ts',
        handle_info (ReportArgs i o nm ts a ig n c r sr)
        = handle_info (ReportArgs i o nm ts' a ig n c r sr))
  /\ (forall n',
        handle_hotspot (ReportArgs i o nm ts a ig n true r sr)
        = handle_hotspot (ReportArgs i o nm ts a ig n' true r sr)).
Proof. repeat split. Qed.

(** ** The printed table *)
Section layout.
Import PrettyPrint.

Lemma length_append (s t : string) :
  String.length (s +:+ t) = (String.length s + String.length t)%nat.
Proof.
  induction s as [|c s IH]; [reflexivity|].
  change (String c s +:+ t) with (String c (s +:+ t)).
  cbn [String.length]. now rewrite IH.
Qed.

Lemma length_spaces (n : nat) : String.length (spaces n) = n.
Proof. induction n as [|n IH]; [reflexivity|]. cbn. now rewrite IH. Qed.

Lemma spaces_add (m n : nat) : spaces (m + n) = spaces m +:+ spaces n.
Proof.
  induction m as [|m IH]; [reflexivity|].
  change (String " " (spaces (m + n)) = String " " (spaces m +:+ spaces n)).
  now rewrite IH.
Qed.

Lemma append_assoc (s t u : string) : (s +:+ t) +:+ u = s +:+ t +:+ u.
Proof.
  induction s as [|c s IH]; [reflexivity|].
  change (String c ((s +:+ t) +:+ u) = String c (s +:+ t +:+ u)). now rewrite IH.
Qed.

Lemma rjust_length (w : nat) (s : string) :
  String.length (rjust w s) = Nat.max w (String.length s).
Proof. unfold rjust. rewrite length_append, length_spaces. lia. Qed.

(** Padding to a width and then to a larger one is padding to the larger
    one. *)
Lemma rjust_rjust (w1 w2 : nat) (s : string) :
  (w1 <= w2)%nat -> rjust w2 (rjust w1 s) = rjust w2 s.
Proof.
  intros Hw. unfold rjust at 1. rewrite rjust_length. unfold rjust.
  rewrite <- append_assoc, <- spaces_add. f_equal. f_equal. lia.
Qed.
End layout.

(** X14: a printed row is the score, the two counts in decimal and the
    file name, each padded on the left to eight characters and never cut,
    with one space between them (the inner width of six of the counts has
    no effect); its length is the sum of the four cell widths plus three,
    and the table has one line per row after the header. *)
Theorem pretty_print_row_layout (format_2f : Z -> string)
    (r : Hotspot.HotspotRow) (df : list Hotspot.HotspotRow) :
  let cell := PrettyPrint.rjust 8 in
  let hotspot := format_2f (Hotspot.hotspot r) in
  let commits := pretty (Z.of_nat (Hotspot.commits r)) in
  let authors := pretty (Z.of_nat (Hotspot.authors r)) in
  PrettyPrint.row_text format_2f r
  = cell hotspot +:+ " " +:+ cell commits +:+ " " +:+ cell authors
      +:+ " " +:+ cell (Hotspot.file_name r)
  /\ String.length (PrettyPrint.row_text format_2f r)
     = (Nat.max 8 (String.length hotspot) + Nat.max 8 (String.length commits)
        + Nat.max 8 (String.length authors)
        + Nat.max 8 (String.length (Hotspot.file_name r)) + 3)%nat
  /\ length (PrettyPrint.pretty_print_hotspot format_2f df) = S (length df).
Proof.
  intros cell hotspot commits authors.
  assert (E : PrettyPrint.row_text format_2f r
              = cell hotspot +:+ " " +:+ cell commits +:+ " " +:+ cell authors
                  +:+ " " +:+ cell (Hotspot.file_name r)).
  { unfold PrettyPrint.row_text, PrettyPrint.format_6d.
    cbn [List.map PrettyPrint.join].
    now rewrite !(rjust_rjust 6 8) by lia. }
  split; [exact E|]. split.
  - rewrite E. subst cell. rewrite !length_append, !rjust_length.
    change (String.length " ") with 1%nat. lia.
  - unfold PrettyPrint.pretty_print_hotspot. cbn [length].
    now rewrite length_map.
Qed.
